(** * NFT sales monitor: the sale-ingestion and dispatch pipeline

    A shallow embedding of [sales_fetcher.py] (the marketplace client, the
    sale aggregator and the image enricher) and of [bot.py] (sweep
    classification, price formatting, the embed, the dispatch loop, the
    polling cycle and the start-up), followed by the properties proved
    about them.

    Python values are embedded as they reach the program: decoded JSON as
    the inductive type [json], unbounded integers as [Z], floats as IEEE-754
    binary64 values ([spec_float] at precision 53), exceptions as an
    explicit result type, the process-wide set of dispatched keys as a
    [gset string].  Everything the program obtains from outside (the clock,
    the HTTP responses, the chat channel) is read from a [World] of
    oracles indexed by a logical tick. *)

From Stdlib Require Import ZArith String Ascii List Lia SpecFloat DecimalString.
From stdpp Require Import base gmap sets strings.
Import ListNotations.

Set Warnings "-register-all".

Open Scope string_scope.
Open Scope list_scope.
Open Scope Z_scope.

(* ===================================================================== *)
(** ** Python values and built-ins used by the program                    *)
(* ===================================================================== *)

Module Py.

(** The exception classes that occur.  All of them derive from
    [Exception]; [IOError] stands for the transport errors of the HTTP
    client and [HTTPException] for a refusal by the chat service. *)
Inductive exn : Set :=
| TypeError | ValueError | AttributeError | OverflowError
| IndexError | KeyError | IOError | HTTPException.

Inductive result (A : Type) : Type :=
| Ok (a : A)
| Raise (e : exn).
Arguments Ok {A} a.
Arguments Raise {A} e.

Definition rbind {A B} (m : result A) (k : A -> result B) : result B :=
  match m with
  | Ok a => k a
  | Raise e => Raise e
  end.

Definition is_ok {A} (m : result A) : bool :=
  match m with Ok _ => true | Raise _ => false end.

(** A decoded JSON document: what [response.json()] hands to the program.
    A dict is an association list (string keys, first binding found). *)
Inductive json : Type :=
| JNull
| JBool (b : bool)
| JInt (z : Z)
| JFloat (f : spec_float)
| JStr (s : string)
| JList (l : list json)
| JDict (d : list (string * json)).

(** Truth value of an object ([if x:], [not x], [x or y]). *)
Definition truthy (v : json) : bool :=
  match v with
  | JNull => false
  | JBool b => b
  | JInt z => negb (z =? 0)
  | JFloat (S754_zero _) => false
  | JFloat _ => true
  | JStr s => negb (String.eqb s "")
  | JList l => match l with [] => false | _ => true end
  | JDict d => match d with [] => false | _ => true end
  end.

Fixpoint assoc (d : list (string * json)) (k : string) : option json :=
  match d with
  | [] => None
  | (k', v) :: d' => if String.eqb k k' then Some v else assoc d' k
  end.

(** [obj.get(k, default)]: only a dict has the method. *)
Definition get (obj : json) (k : string) (default : json) : result json :=
  match obj with
  | JDict d => Ok (match assoc d k with Some v => v | None => default end)
  | _ => Raise AttributeError
  end.

(** [x == "text"] for a string literal. *)
Definition eq_str (v : json) (s : string) : bool :=
  match v with JStr s' => String.eqb s' s | _ => false end.

(** *** [int(x)] *)

Definition is_space (c : ascii) : bool :=
  let n := N_of_ascii c in
  (((9 <=? n) && (n <=? 13)) || ((28 <=? n) && (n <=? 32)))%N.

Definition digit_of (c : ascii) : option Z :=
  let n := N_of_ascii c in
  if ((48 <=? n) && (n <=? 57))%N then Some (Z.of_N n - 48) else None.

Fixpoint lstrip_space (s : string) : string :=
  match s with
  | String c s' => if is_space c then lstrip_space s' else s
  | EmptyString => EmptyString
  end.

Fixpoint rstrip_space (s : string) : string :=
  match s with
  | EmptyString => EmptyString
  | String c s' =>
      match rstrip_space s' with
      | EmptyString => if is_space c then EmptyString else String c EmptyString
      | r => String c r
      end
  end.

(** Digits after the first one: a single underscore may separate two
    digits. *)
Fixpoint digits_tail (acc : Z) (after_underscore : bool) (s : string) : option Z :=
  match s with
  | EmptyString => if after_underscore then None else Some acc
  | String c s' =>
      match digit_of c with
      | Some d => digits_tail (10 * acc + d) false s'
      | None =>
          if Ascii.eqb c "_" && negb after_underscore
          then digits_tail acc true s'
          else None
      end
  end.

Definition digits_value (s : string) : option Z :=
  match s with
  | String c s' =>
      match digit_of c with
      | Some d => digits_tail d false s'
      | None => None
      end
  | EmptyString => None
  end.

(** [int(s)] for a string, base 10: surrounding whitespace, one optional
    sign, digits.  (ASCII text; the interpreter also takes other Unicode
    digits and spaces.) *)
Definition int_of_string (s : string) : result Z :=
  let body := rstrip_space (lstrip_space s) in
  let parsed :=
    match body with
    | String "-" r => option_map Z.opp (digits_value r)
    | String "+" r => digits_value r
    | _ => digits_value body
    end in
  match parsed with
  | Some z => Ok z
  | None => Raise ValueError
  end.

(** [int(x)] for a float: truncation toward zero. *)
Definition int_of_float (f : spec_float) : result Z :=
  match f with
  | S754_zero _ => Ok 0
  | S754_infinity _ => Raise OverflowError
  | S754_nan => Raise ValueError
  | S754_finite s m e =>
      let a := if 0 <=? e then Zpos m * 2 ^ e else Zpos m / 2 ^ (- e) in
      Ok (if s then - a else a)
  end.

Definition py_int (v : json) : result Z :=
  match v with
  | JInt z => Ok z
  | JBool b => Ok (if b then 1 else 0)
  | JFloat f => int_of_float f
  | JStr s => int_of_string s
  | JNull | JList _ | JDict _ => Raise TypeError
  end.

(** *** Hashing and key equality (dict membership) *)

Definition hashable (v : json) : bool :=
  match v with
  | JList _ | JDict _ => false
  | _ => true
  end.

Definition float_eq_int (f : spec_float) (z : Z) : bool :=
  match f with
  | S754_zero _ => z =? 0
  | S754_finite s m e =>
      let sm := if s then Zneg m else Zpos m in
      if 0 <=? e then z =? sm * 2 ^ e else z * 2 ^ (- e) =? sm
  | _ => false
  end.

Definition int_of_bool (b : bool) : Z := if b then 1 else 0.

(** Key comparison of two hashable objects: [==], where numbers of the
    three numeric types compare by value, or identity (the decoder yields
    one NaN object). *)
Definition key_eq (a b : json) : bool :=
  match a, b with
  | JNull, JNull => true
  | JStr s, JStr t => String.eqb s t
  | JBool x, JBool y => Bool.eqb x y
  | JBool x, JInt z | JInt z, JBool x => z =? int_of_bool x
  | JInt x, JInt y => x =? y
  | JBool x, JFloat f | JFloat f, JBool x => float_eq_int f (int_of_bool x)
  | JInt z, JFloat f | JFloat f, JInt z => float_eq_int f z
  | JFloat S754_nan, JFloat S754_nan => true
  | JFloat f, JFloat g => SFeqb f g
  | _, _ => false
  end.

(** *** [str(x)] *)

Definition str_of_int (z : Z) : string := NilZero.string_of_int (Z.to_int z).

(** [str(x)].  The text of [repr] for floats, lists and dicts is supplied
    by the runtime ([repr]); no property below depends on it. *)
Definition py_str (repr : json -> string) (v : json) : string :=
  match v with
  | JStr s => s
  | JInt z => str_of_int z
  | JBool b => if b then "True" else "False"
  | JNull => "None"
  | JFloat _ | JList _ | JDict _ => repr v
  end.

(** *** [s.rstrip(c)] for a one-character argument *)

Fixpoint rstrip (c : ascii) (s : string) : string :=
  match s with
  | EmptyString => EmptyString
  | String a s' =>
      match rstrip c s' with
      | EmptyString => if Ascii.eqb a c then EmptyString else String a EmptyString
      | r => String a r
      end
  end.

(** *** Floats: [int / float] and the [.4f] format *)

Definition prec : Z := 53.
Definition emax : Z := 1024.

(** Conversion of an [int] operand to [float]: nearest, ties to even;
    an integer beyond the float range raises. *)
Definition float_of_int (z : Z) : result spec_float :=
  match binary_normalize prec emax z 0 false with
  | S754_infinity _ => Raise OverflowError
  | f => Ok f
  end.

(** The literal [1e18] (an exact binary64 value). *)
Definition float_1e18 : spec_float := binary_normalize prec emax (10 ^ 18) 0 false.

Definition float_div (x y : spec_float) : spec_float := SFdiv prec emax x y.

(** [|x| * 10^4] rounded to the nearest integer, ties to even, for the
    finite float [m * 2^e]. *)
Definition scaled_round (m : positive) (e : Z) : Z :=
  if 0 <=? e then Zpos m * 10 ^ 4 * 2 ^ e
  else
    let num := Zpos m * 10 ^ 4 in
    let den := 2 ^ (- e) in
    let q := num / den in
    let r := num mod den in
    if (den <? 2 * r) || ((den =? 2 * r) && Z.odd q) then q + 1 else q.

Definition str_of_nat_part (n : Z) : string := NilZero.string_of_uint (N.to_uint (Z.to_N n)).

Fixpoint zeros (k : nat) : string :=
  match k with
  | O => EmptyString
  | S k' => String "0" (zeros k')
  end.

Definition zfill (width : nat) (s : string) : string :=
  zeros (width - String.length s) +:+ s.

Definition sign_str (s : bool) : string := if s then "-" else "".

Definition fixed4 (s : bool) (n : Z) : string :=
  sign_str s +:+ str_of_nat_part (n / 10000) +:+ "." +:+ zfill 4 (str_of_nat_part (n mod 10000)).

(** [f"{x:.4f}"] *)
Definition format_4f (x : spec_float) : string :=
  match x with
  | S754_nan => "nan"
  | S754_infinity s => sign_str s +:+ "inf"
  | S754_zero s => fixed4 s 0
  | S754_finite s m e => fixed4 s (scaled_round m e)
  end.

End Py.

(* ===================================================================== *)
(** ** The chat service's embed                                           *)
(* ===================================================================== *)

Module Discord.

Inductive Color : Set := blue | green | orange | red.

Record Embed : Type := {
  title : string;
  description : string;
  color : Color;
  timestamp : Z;
  fields : list (string * string * bool);   (* name, value, inline *)
  image : option string;
  footer : option string
}.

Definition add_field (e : Embed) (name value : string) (inline : bool) : Embed :=
  {| title := title e; description := description e; color := color e;
     timestamp := timestamp e; fields := fields e ++ [(name, value, inline)];
     image := image e; footer := footer e |}.

Definition set_image (e : Embed) (url : string) : Embed :=
  {| title := title e; description := description e; color := color e;
     timestamp := timestamp e; fields := fields e;
     image := Some url; footer := footer e |}.

Definition set_footer (e : Embed) (text : string) : Embed :=
  {| title := title e; description := description e; color := color e;
     timestamp := timestamp e; fields := fields e;
     image := image e; footer := Some text |}.

End Discord.

(* ===================================================================== *)
(** ** The world outside the process, the process state, the effects      *)
(* ===================================================================== *)

Module Runtime.
Import Py Discord.

(** What an HTTP GET comes back with: a transport failure, or a response
    with its status, its body as [response.json()] would decode it and as
    [response.text()] would read it (either may fail). *)
Inductive http_outcome : Type :=
| Failed (e : exn)
| Response (status : Z) (body : result json) (text : result string).

(** The oracles.  Each consultation happens at a logical tick of the
    process, so that the same question may be answered differently later. *)
Record World : Type := {
  py_repr : json -> string;                      (* text of repr() for floats and containers *)
  clock : nat -> Z;                              (* datetime.utcnow() *)
  http_events : nat -> Z -> http_outcome;        (* GET /events, occurred_after from the watermark *)
  http_asset : nat -> string -> http_outcome;    (* GET /asset/<contract>/<token_id> *)
  client_ready : nat -> bool;                    (* client.is_ready() *)
  channel_found : nat -> bool;                   (* client.get_channel(CHANNEL_ID) is not None *)
  channel_send : nat -> Embed -> option exn      (* channel.send(embed=...): None when delivered *)
}.

Inductive level : Set := Info | Warning | Error.

Inductive message : Type :=
| MsgRateLimited
| MsgApiError (status : Z)
| MsgFetchError (e : exn)
| MsgImagesError (e : exn)
| MsgFetching (sale_id : string)
| MsgPosted (sale_id : string)
| MsgSaleError (sale_id : string) (e : exn)
| MsgPolling
| MsgFound (n : Z)
| MsgChannelMissing
| MsgPollError (e : exn).

(** Observable actions, in the order they happen.  [ESend] carries the
    dedup key of the sale the embed was built for (a label for the proofs:
    the channel receives the embed only) and the outcome of the call.
    [EWatermark] marks an assignment to [last_fetch_time]. *)
Inductive effect : Type :=
| EGetEvents (occurred_after : Z)
| EGetAssets (batch : list string)
| ESleep (ms : Z)
| ESend (key : string) (e : Embed) (outcome : option exn)
| EWatermark (t : Z)
| ELog (l : level) (m : message).

Record state : Type := {
  tick : nat;
  trace : list effect;
  last_fetch_time : Z;                  (* SalesFetcher.last_fetch_time *)
  processed_sales : gset string         (* bot.processed_sales *)
}.

(** Computations: state passing with exceptions; the state reached when
    an exception is raised is kept (nothing is rolled back). *)
Definition M (A : Type) : Type := state -> result A * state.

Definition ret {A} (a : A) : M A := fun st => (Ok a, st).
Definition raise {A} (e : exn) : M A := fun st => (Raise e, st).
Definition lift {A} (r : result A) : M A := fun st => (r, st).

Definition bind {A B} (m : M A) (k : A -> M B) : M B :=
  fun st =>
    match m st with
    | (Ok a, st') => k a st'
    | (Raise e, st') => (Raise e, st')
    end.

(** [try: m  except Exception as e: h e] *)
Definition try_except {A} (m : M A) (h : exn -> M A) : M A :=
  fun st =>
    match m st with
    | (Ok a, st') => (Ok a, st')
    | (Raise e, st') => h e st'
    end.

Definition next_tick (st : state) : state :=
  {| tick := S (tick st); trace := trace st;
     last_fetch_time := last_fetch_time st; processed_sales := processed_sales st |}.

Definition push (e : effect) (st : state) : state :=
  {| tick := tick st; trace := trace st ++ [e];
     last_fetch_time := last_fetch_time st; processed_sales := processed_sales st |}.

Definition emit (e : effect) : M unit := fun st => (Ok tt, push e st).
Definition log (l : level) (m : message) : M unit := emit (ELog l m).
Definition sleep (ms : Z) : M unit := emit (ESleep ms).

Definition utcnow (w : World) : M Z :=
  fun st => (Ok (clock w (tick st)), next_tick st).

Definition get_last_fetch_time : M Z := fun st => (Ok (last_fetch_time st), st).

Definition set_last_fetch_time (t : Z) : M unit :=
  fun st => (Ok tt,
             push (EWatermark t)
               {| tick := tick st; trace := trace st;
                  last_fetch_time := t; processed_sales := processed_sales st |}).

Definition is_processed (k : string) : M bool :=
  fun st => (Ok (bool_decide (k ∈ processed_sales st)), st).

Definition add_processed (k : string) : M unit :=
  fun st => (Ok tt,
             {| tick := tick st; trace := trace st;
                last_fetch_time := last_fetch_time st;
                processed_sales := {[ k ]} ∪ processed_sales st |}).

(** A loop whose body may raise: the first exception ends it. *)
Fixpoint foldM {A B} (f : A -> B -> M A) (l : list B) (a : A) : M A :=
  match l with
  | [] => ret a
  | x :: l' => bind (f a x) (fun a' => foldM f l' a')
  end.

Fixpoint rfold {A B} (f : A -> B -> result A) (l : list B) (a : A) : result A :=
  match l with
  | [] => Ok a
  | x :: l' => rbind (f a x) (fun a' => rfold f l' a')
  end.

End Runtime.

Declare Scope run_scope.
Delimit Scope run_scope with run.
Notation "x <- m ;; k" := (Runtime.bind m (fun x => k))
  (at level 100, m at next level, right associativity) : run_scope.
Notation "m ;;; k" := (Runtime.bind m (fun _ => k))
  (at level 100, right associativity) : run_scope.
Notation "x <~ m ;; k" := (Py.rbind m (fun x => k))
  (at level 100, m at next level, right associativity) : run_scope.

(* ===================================================================== *)
(** ** sales_fetcher.py                                                   *)
(* ===================================================================== *)

Module SalesFetcher.
Import Py Discord Runtime.
Local Open Scope run_scope.

Record SaleEvent : Type := {
  tx_hash : json;
  buyer : json;
  seller : json;
  token_id : option string;            (* for single buys *)
  token_ids : option (list string);    (* for sweeps *)
  token_count : Z;
  total_price : Z;                     (* price in wei *)
  timestamp : option Z
}.

Section Fetcher.
Variable w : World.

(** *** [_parse_sales_response] *)

(** [key in obj] *)
Definition contains (obj : json) (k : string) : result bool :=
  match obj with
  | JDict d => Ok (match assoc d k with Some _ => true | None => false end)
  | JList l => Ok (existsb (fun v => eq_str v k) l)
  | JStr s => Ok (match String.index 0 k s with Some _ => true | None => false end)
  | _ => Raise TypeError
  end.

Fixpoint chars (s : string) : list json :=
  match s with
  | EmptyString => []
  | String c s' => JStr (String c EmptyString) :: chars s'
  end.

(** The items a [for] loop draws from an object. *)
Definition iterate (obj : json) : result (list json) :=
  match obj with
  | JList l => Ok l
  | JDict d => Ok (map (fun kv => JStr (fst kv)) d)
  | JStr s => Ok (chars s)
  | _ => Raise TypeError
  end.

(** [tx_groups]: insertion-ordered, keyed by transaction hash. *)
Definition tx_groups : Type := list (json * list json).

(** [if k not in g: g[k] = []] followed by [g[k].append(event)]. *)
Fixpoint group_add (g : tx_groups) (k : json) (event : json) : tx_groups :=
  match g with
  | [] => [(k, [event])]
  | (k', events) :: g' =>
      if key_eq k' k then (k', events ++ [event]) :: g'
      else (k', events) :: group_add g' k event
  end.

(** Body of the first loop. *)
Definition group_step (g : tx_groups) (event : json) : result tx_groups :=
  tx <~ get event "transaction" (JDict []) ;;
  tx_hash <~ get tx "transaction_hash" JNull ;;
  if negb (truthy tx_hash) then Ok g
  else if negb (hashable tx_hash) then Raise TypeError
  else Ok (group_add g tx_hash event).

(** [payment_token.get("symbol") == "ETH" or payment_token.get("name") == "Ether"] *)
Definition is_native (payment_token : json) : result bool :=
  symbol <~ get payment_token "symbol" JNull ;;
  if eq_str symbol "ETH" then Ok true
  else name <~ get payment_token "name" JNull ;; Ok (eq_str name "Ether").

(** Body of the loop over the events of one transaction: the collected
    token ids and the running total. *)
Definition leg_step (acc : list string * Z) (event : json) : result (list string * Z) :=
  let '(token_ids, total_price) := acc in
  asset <~ get event "asset" JNull ;;
  token_ids <~ (if truthy asset
                then token_id <~ get asset "token_id" JNull ;;
                     Ok (if truthy token_id
                         then token_ids ++ [py_str (py_repr w) token_id]
                         else token_ids)
                else Ok token_ids) ;;
  payment_token <~ get event "payment_token" (JDict []) ;;
  native <~ is_native payment_token ;;
  if native : bool then
    total_price_str <~ get event "total_price" (JStr "0") ;;
    match py_int total_price_str with
    | Ok v => Ok (token_ids, total_price + v)
    | Raise ValueError | Raise TypeError => Ok (token_ids, total_price)
    | Raise e => Raise e
    end
  else Ok (token_ids, total_price).

Definition len {A} (l : list A) : Z := Z.of_nat (length l).

(** Body of the second loop: one transaction, its events in arrival
    order.  [None] stands for [continue]. *)
Definition sale_of_group (g : json * list json) : M (option SaleEvent) :=
  let '(tx_hash, events) := g in
  match events with
  | [] => ret None
  | first_event :: _ =>
      winner <- lift (get first_event "winner_account" (JDict [])) ;;
      buyer <- lift (get winner "address" (JStr "Unknown")) ;;
      seller_account <- lift (get first_event "seller" (JDict [])) ;;
      seller <- lift (get seller_account "address" (JStr "Unknown")) ;;
      collected <- lift (rfold leg_step events ([], 0)) ;;
      let '(token_ids, total_price) := collected in
      match token_ids with
      | [] => ret None
      | first_id :: _ =>
          now <- utcnow w ;;
          ret (Some {| tx_hash := tx_hash;
                       buyer := buyer;
                       seller := seller;
                       token_id := if len token_ids =? 1 then Some first_id else None;
                       token_ids := if 1 <? len token_ids then Some token_ids else None;
                       token_count := len token_ids;
                       total_price := total_price;
                       timestamp := Some now |})
      end
  end.

Definition sales_step (sales : list SaleEvent) (g : json * list json) : M (list SaleEvent) :=
  o <- sale_of_group g ;;
  ret (match o with Some sale => sales ++ [sale] | None => sales end).

Definition _parse_sales_response (data : json) : M (list SaleEvent) :=
  present <- lift (contains data "asset_events") ;;
  if negb present then ret []
  else
    asset_events <- lift (get data "asset_events" (JList [])) ;;
    events <- lift (iterate asset_events) ;;
    groups <- lift (rfold group_step events []) ;;
    foldM sales_step groups [].

(** *** [fetch_recent_sales] *)

Definition get_events (occurred_after : Z) : M (Z * result json * result string) :=
  fun st =>
    let st' := next_tick (push (EGetEvents occurred_after) st) in
    match http_events w (tick st) occurred_after with
    | Failed e => (Raise e, st')
    | Response status body text => (Ok (status, body, text), st')
    end.

Definition fetch_recent_sales : M (list SaleEvent) :=
  try_except
    (watermark <- get_last_fetch_time ;;
     response <- get_events watermark ;;
     let '(status, body, text) := response in
     if status =? 200 then
       data <- lift body ;;
       sales <- _parse_sales_response data ;;
       now <- utcnow w ;;
       set_last_fetch_time now ;;;
       ret sales
     else if status =? 429 then
       log Warning MsgRateLimited ;;;
       ret []
     else
       _ <- lift text ;;
       log Error (MsgApiError status) ;;;
       ret [])
    (fun e => log Error (MsgFetchError e) ;;; ret []).

(** *** [_fetch_single_image] and [fetch_nft_images] *)

(** [a or b]: [b] is evaluated only when [a] is false. *)
Definition or_else (a : json) (b : result json) : result json :=
  if truthy a then Ok a else b.

Definition image_of_asset (data : json) : result json :=
  a <~ get data "image_url" JNull ;;
  or_else a (
    b <~ get data "image_original_url" JNull ;;
    or_else b (
      c <~ get data "image_preview_url" JNull ;;
      or_else c (
        collection <~ get data "collection" (JDict []) ;;
        get collection "image_url" JNull))).

(** The value of one lookup; [JNull] is [None]. *)
Definition _fetch_single_image (outcome : http_outcome) : json :=
  match outcome with
  | Failed _ => JNull
  | Response status body _ =>
      if status =? 200 then
        match (data <~ body ;; image_of_asset data) with
        | Ok image_url => image_url
        | Raise _ => JNull
        end
      else JNull
  end.

(** [asyncio.gather] over one batch: the lookups are issued together and
    the values come back in task order. *)
Definition gather_images (batch : list string) : M (list json) :=
  fun st =>
    (Ok (map (fun token_id => _fetch_single_image (http_asset w (tick st) token_id)) batch),
     next_tick (push (EGetAssets batch) st)).

(** [isinstance(result, str) and result] *)
Definition keep_image (images : list string) (r : json) : list string :=
  match r with
  | JStr s => if negb (String.eqb s "") then images ++ [s] else images
  | _ => images
  end.

Definition batch_size : nat := 5.

(** [l[i:j]] for [0 <= i <= j] *)
Definition slice {A} (l : list A) (i j : nat) : list A := firstn (j - i) (skipn i l).

(** [range(0, n, step)] *)
Definition range (n step : nat) : list nat :=
  map (fun k => (k * step)%nat) (seq 0 ((n + step - 1) / step)).

Definition batch_step (token_ids : list string) (images : list string) (i : nat)
  : M (list string) :=
  let batch := slice token_ids i (i + batch_size) in
  results <- gather_images batch ;;
  let images := fold_left keep_image results images in
  (if (i + batch_size <? length token_ids)%nat then sleep 100 else ret tt) ;;;
  ret images.

(** The argument is the [token_ids] field of a sale as the caller passes
    it: [None] cannot be sliced.  Nothing after the slice raises, so the
    handler always finds [images] empty. *)
Definition fetch_nft_images (token_ids : option (list string)) : M (list string) :=
  try_except
    (match token_ids with
     | None => raise TypeError
     | Some ids =>
         let ids := firstn 20 ids in
         foldM (batch_step ids) (range (length ids) batch_size) []
     end)
    (fun e => log Error (MsgImagesError e) ;;; ret []).

End Fetcher.
End SalesFetcher.

(* ===================================================================== *)
(** ** bot.py                                                             *)
(* ===================================================================== *)

Module Bot.
Import Py Discord Runtime SalesFetcher.
Local Open Scope run_scope.

Definition get_sweep_category (count : Z) : string :=
  if count =? 1 then "single"
  else if (2 <=? count) && (count <=? 5) then "mini"
  else if (6 <=? count) && (count <=? 10) then "big"
  else "huge".

(** [price_wei / 1e18] then [f"{eth_price:.4f}".rstrip('0').rstrip('.')] *)
Definition format_price (price_wei : Z) : result string :=
  x <~ float_of_int price_wei ;;
  let eth_price := float_div x float_1e18 in
  Ok (rstrip "." (rstrip "0" (format_4f eth_price))).

Section Dispatch.
Variable w : World.

Definition str (v : json) : string := py_str (py_repr w) v.

Definition str_opt (o : option string) : string :=
  match o with Some s => s | None => "None" end.

(** [x[:10]] *)
Definition first10 (v : json) : result json :=
  match v with
  | JStr s => Ok (JStr (String.substring 0 10 s))
  | JList l => Ok (JList (firstn 10 l))
  | _ => Raise TypeError
  end.

Definition newline : string := String (ascii_of_nat 10) EmptyString.

Fixpoint join (sep : string) (l : list string) : string :=
  match l with
  | [] => ""
  | [s] => s
  | s :: l' => s +:+ sep +:+ join sep l'
  end.

(** [[f"[NFT #{sale.token_ids[i]}]({img})" for i, img in enumerate(imgs)]] *)
Fixpoint image_links (token_ids : option (list string)) (i : nat) (imgs : list string)
  : result (list string) :=
  match imgs with
  | [] => Ok []
  | img :: imgs' =>
      token <~ (match token_ids with
                | None => Raise TypeError
                | Some ids => match nth_error ids i with
                              | Some t => Ok t
                              | None => Raise IndexError
                              end
                end) ;;
      rest <~ image_links token_ids (S i) imgs' ;;
      Ok (("[NFT #" +:+ token +:+ "](" +:+ img +:+ ")") :: rest)
  end.

Definition create_sale_embed (sale : SaleEvent) (nft_images : list string) : M Embed :=
  let count := token_count sale in
  let category := get_sweep_category count in
  short <- lift (first10 (buyer sale)) ;;
  price <- lift (format_price (total_price sale)) ;;
  let '(title, color, description) :=
    if String.eqb category "single" then
      ("🎨 User " +:+ str short +:+ "... bought NFT #" +:+ str_opt (token_id sale) +:+ "!",
       blue, "**Price:** " +:+ price +:+ " ETH")
    else if String.eqb category "mini" then
      ("⚡ Mini sweep! User " +:+ str short +:+ "... grabbed " +:+ str_of_int count +:+ " NFTs!",
       green, "**Total Price:** " +:+ price +:+ " ETH")
    else if String.eqb category "big" then
      ("🔥 Big sweep alert! User " +:+ str short +:+ "... swept " +:+ str_of_int count +:+ " NFTs!",
       orange, "**Total Price:** " +:+ price +:+ " ETH")
    else
      ("💥 Huge sweep! User " +:+ str short +:+ "... dominated with " +:+ str_of_int count +:+ " NFTs!",
       red, "**Total Price:** " +:+ price +:+ " ETH") in
  now <- utcnow w ;;
  let embed := {| title := title; description := description; color := color;
                  Discord.timestamp := now; fields := []; image := None;
                  footer := None |} in
  let embed :=
    if truthy (tx_hash sale)
    then add_field embed "Transaction"
           ("[View on Etherscan](https://etherscan.io/tx/" +:+ str (tx_hash sale) +:+ ")") false
    else embed in
  embed <- (match nft_images with
            | [] => ret embed
            | first :: _ =>
                let embed := set_image embed first in
                if (1 <? length nft_images)%nat then
                  links <- lift (image_links (token_ids sale) 0 (firstn 10 nft_images)) ;;
                  let text := join newline links in
                  let text :=
                    if (10 <? length nft_images)%nat
                    then text +:+ newline +:+ "... and "
                           +:+ str_of_int (len nft_images - 10) +:+ " more"
                    else text in
                  ret (add_field embed "NFT Images" text false)
                else ret embed
            end) ;;
  ret (set_footer embed "NFT Sales Monitor").

(** [f"{sale.tx_hash}_{sale.token_id if sale.token_count == 1 else sale.token_ids[0]}"] *)
Definition sale_id (sale : SaleEvent) : result string :=
  suffix <~ (if token_count sale =? 1 then Ok (str_opt (token_id sale))
             else match token_ids sale with
                  | None => Raise TypeError
                  | Some [] => Raise IndexError
                  | Some (t :: _) => Ok t
                  end) ;;
  Ok (str (tx_hash sale) +:+ "_" +:+ suffix).

(** [await channel.send(embed=embed)] *)
Definition send (key : string) (embed : Embed) : M unit :=
  fun st =>
    let outcome := channel_send w (tick st) embed in
    let st' := next_tick (push (ESend key embed outcome) st) in
    match outcome with
    | None => (Ok tt, st')
    | Some e => (Raise e, st')
    end.

(** Body of the loop of [process_sales].  The key is computed before the
    [try]. *)
Definition process_sale (sale : SaleEvent) : M unit :=
  key <- lift (sale_id sale) ;;
  seen <- is_processed key ;;
  if seen : bool then ret tt
  else
    try_except
      (log Info (MsgFetching key) ;;;
       nft_images <- fetch_nft_images w (token_ids sale) ;;
       embed <- create_sale_embed sale nft_images ;;
       send key embed ;;;
       add_processed key ;;;
       log Info (MsgPosted key) ;;;
       sleep 300)
      (fun e => log Error (MsgSaleError key e)).

Definition process_sales (sales : list SaleEvent) : M unit :=
  foldM (fun _ sale => process_sale sale) sales tt.

Definition ask (oracle : World -> nat -> bool) : M bool :=
  fun st => (Ok (oracle w (tick st)), next_tick st).

Definition poll_sales : M unit :=
  ready <- ask client_ready ;;
  if negb ready then ret tt
  else
    found <- ask channel_found ;;
    if negb found then log Error MsgChannelMissing
    else
      try_except
        (log Info MsgPolling ;;;
         sales <- fetch_recent_sales w ;;
         match sales with
         | [] => ret tt
         | _ => log Info (MsgFound (len sales)) ;;; process_sales sales
         end)
        (fun e => log Error (MsgPollError e)).

End Dispatch.
End Bot.

(* ===================================================================== *)
(** ** Start-up: the configuration read at import, the fetcher, [main]    *)
(* ===================================================================== *)

Module Startup.
Import Py.
Local Open Scope run_scope.

(** The environment after [load_dotenv()]: each variable is set or not. *)
Record Env : Type := {
  DISCORD_BOT_TOKEN : option string;
  DISCORD_CHANNEL_ID : option string;
  NFT_CONTRACT_ADDRESS : option string;
  OPENSEA_API_KEY : option string;
  POLL_INTERVAL_SECONDS : option string
}.

(** [os.getenv(name, default)] *)
Definition getenv (value : option string) (default : string) : string :=
  match value with Some s => s | None => default end.

(** The module globals of [bot.py]. *)
Record Config : Type := {
  BOT_TOKEN : option string;
  CHANNEL_ID : Z;
  CONTRACT_ADDRESS : option string;
  API_KEY : string;
  POLL_INTERVAL : Z
}.

Definition configure (env : Env) : result Config :=
  let token := DISCORD_BOT_TOKEN env in
  channel <~ int_of_string (getenv (DISCORD_CHANNEL_ID env) "0") ;;
  let contract := NFT_CONTRACT_ADDRESS env in
  let key := getenv (OPENSEA_API_KEY env) "" in
  interval <~ int_of_string (getenv (POLL_INTERVAL_SECONDS env) "10") ;;
  Ok {| BOT_TOKEN := token; CHANNEL_ID := channel; CONTRACT_ADDRESS := contract;
        API_KEY := key; POLL_INTERVAL := interval |}.

(** [str.lower()] (ASCII text). *)
Definition lower_char (c : ascii) : ascii :=
  let n := nat_of_ascii c in
  if ((65 <=? n) && (n <=? 90))%nat then ascii_of_nat (n + 32) else c.

Fixpoint lower (s : string) : string :=
  match s with
  | EmptyString => EmptyString
  | String c s' => String (lower_char c) (lower s')
  end.

(** [timedelta(minutes=n)]; a datetime counts microseconds. *)
Definition minutes (n : Z) : Z := n * 60 * 1000000.

(** The attributes of a [SalesFetcher] set by [__init__]. *)
Record Fetcher : Type := {
  contract_address : string;
  api_key : string;
  last_fetch_time : Z
}.

(** [SalesFetcher.__init__]; [now] is what [datetime.utcnow()] returns. *)
Definition init (address : option string) (key : string) (now : Z) : result Fetcher :=
  match address with
  | None => Raise AttributeError          (* None.lower() *)
  | Some a =>
      Ok {| contract_address := lower a; api_key := key;
            last_fetch_time := now - minutes 2 |}
  end.

(** The headers of the session that [_get_session] creates. *)
Definition session_headers (f : Fetcher) : list (string * string) :=
  if String.eqb (api_key f) "" then [] else [("X-API-KEY", api_key f)].

(** The module-level statements of [bot.py] up to the construction of the
    fetcher. *)
Definition load (env : Env) (now : Z) : result (Config * Fetcher) :=
  cfg <~ configure env ;;
  fetcher <~ init (CONTRACT_ADDRESS cfg) (API_KEY cfg) now ;;
  Ok (cfg, fetcher).

Inductive notice : Set :=
| TokenNotSet | ChannelNotSet | ContractNotSet | FailedToStart (e : exn).

Inductive action : Set :=
| LogError (n : notice)
| ClientRun (token : string).

(** [not x] for an optional string: [None] and the empty string are falsy. *)
Definition falsy (o : option string) : bool :=
  match o with
  | None => true
  | Some s => String.eqb s ""
  end.

(** [main()]; [run] is what [client.run(token)] ends with. *)
Definition main (cfg : Config) (run : string -> option exn) : list action :=
  match BOT_TOKEN cfg with
  | None => [LogError TokenNotSet]
  | Some token =>
      if String.eqb token "" then [LogError TokenNotSet]
      else if CHANNEL_ID cfg =? 0 then [LogError ChannelNotSet]
      else if falsy (CONTRACT_ADDRESS cfg) then [LogError ContractNotSet]
      else
        match run token with
        | None => [ClientRun token]
        | Some e => [ClientRun token; LogError (FailedToStart e)]
        end
  end.

End Startup.

(* ===================================================================== *)
(** ** Vocabulary of the properties                                       *)
(* ===================================================================== *)

Module Vocabulary.
Import Py Discord Runtime SalesFetcher Bot.

(** *** Text *)

Fixpoint last_char (s : string) : option ascii :=
  match s with
  | EmptyString => None
  | String c EmptyString => Some c
  | String _ s' => last_char s'
  end.

Fixpoint count_char (c : ascii) (s : string) : nat :=
  match s with
  | EmptyString => O
  | String a s' => if Ascii.eqb a c then S (count_char c s') else count_char c s'
  end.

Fixpoint repeat_char (c : ascii) (k : nat) : string :=
  match k with
  | O => EmptyString
  | S k' => String c (repeat_char c k')
  end.

(** A rendered amount is trimmed when it does not end in a decimal point
    and, if it has a decimal point, does not end in the digit zero. *)
Definition trimmed (s : string) : bool :=
  match last_char s with
  | Some c =>
      if Ascii.eqb c "." then false
      else if Ascii.eqb c "0" then (count_char "." s =? 0)%nat
      else true
  | None => true
  end.

(** *** Raw marketplace events *)

(** What the first loop reads as the transaction hash of an event. *)
Definition tx_of (event : json) : result json :=
  (tx <~ get event "transaction" (JDict []) ;;
   get tx "transaction_hash" JNull)%run.

(** The transaction identifier of an event, when it is a non-empty text. *)
Definition tx_key (event : json) : option string :=
  match tx_of event with
  | Ok (JStr h) => if String.eqb h "" then None else Some h
  | _ => None
  end.


Definition key_is (h : string) (event : json) : bool :=
  match tx_key event with
  | Some k => String.eqb k h
  | None => false
  end.


(** Every event belongs to transaction [a] or [b] or to none. *)
Definition keyed (a b : string) (event : json) : bool :=
  match tx_key event with
  | Some k => String.eqb k a || String.eqb k b
  | None => true
  end.


Definition response (events : list json) : json :=
  JDict [("asset_events", JList events)].

(** The asset reference of an event: the token id of its [asset]. *)
Definition token_of (event : json) : option json :=
  match get event "asset" JNull with
  | Ok asset =>
      if truthy asset then
        match get asset "token_id" JNull with
        | Ok token_id => if truthy token_id then Some token_id else None
        | Raise _ => None
        end
      else None
  | Raise _ => None
  end.


Definition leg_tokens (w : World) (event : json) : list string :=
  match token_of event with
  | Some t => [py_str (py_repr w) t]
  | None => []
  end.

(** The leg is paid in the native currency: the symbol of its payment
    token is ETH or its name is Ether. *)
Definition native_leg (event : json) : bool :=
  match get event "payment_token" (JDict []) with
  | Ok payment_token =>
      match is_native payment_token with
      | Ok b => b
      | Raise _ => false
      end
  | Raise _ => false
  end.

Definition leg_price (event : json) : result Z :=
  match get event "total_price" (JStr "0") with
  | Ok p => py_int p
  | Raise e => Raise e
  end.

(** What a leg adds to the total: its price when it is native and the
    price parses, nothing otherwise. *)
Definition leg_value (event : json) : Z :=
  if native_leg event then
    match leg_price event with
    | Ok v => v
    | Raise _ => 0
    end
  else 0.

Definition total_value (events : list json) : Z :=
  fold_right Z.add 0 (map leg_value events).

Definition tokens (w : World) (events : list json) : list string :=
  flat_map (leg_tokens w) events.

(** The object read under [k] is absent or is itself an object. *)
Definition object_or_absent (event : json) (k : string) : bool :=
  match event with
  | JDict d =>
      match assoc d k with
      | None | Some (JDict _) => true
      | Some _ => false
      end
  | _ => false
  end.

(** A raw event shaped as the aggregator reads it: an object whose
    [transaction], [payment_token], [winner_account] and [seller] are
    objects when present, whose transaction hash is a text when it is
    there at all, whose [asset] is an object when it is not empty, and
    whose price is not an infinite float. *)
Definition event_ok (event : json) : bool :=
  object_or_absent event "transaction"
  && object_or_absent event "payment_token"
  && object_or_absent event "winner_account"
  && object_or_absent event "seller"
  && match tx_of event with
     | Ok (JStr _) => true
     | Ok v => negb (truthy v)
     | Raise _ => false
     end
  && match get event "asset" JNull with
     | Ok (JDict _) => true
     | Ok a => negb (truthy a)
     | Raise _ => false
     end
  && match leg_price event with
     | Raise OverflowError => false
     | _ => true
     end.

(** The address of a counterparty of the event. *)
Definition party (event : json) (role : string) : json :=
  match get event role (JDict []) with
  | Ok account =>
      match get account "address" (JStr "Unknown") with
      | Ok a => a
      | Raise _ => JNull
      end
  | Raise _ => JNull
  end.

(** The sale the aggregator builds from the events of one transaction. *)
Definition sale_of (w : World) (k : json) (events : list json) (now : Z) : SaleEvent :=
  let ids := tokens w events in
  {| tx_hash := k;
     buyer := party (hd JNull events) "winner_account";
     seller := party (hd JNull events) "seller";
     token_id := if len ids =? 1 then head ids else None;
     token_ids := if 1 <? len ids then Some ids else None;
     token_count := len ids;
     total_price := total_value events;
     SalesFetcher.timestamp := Some now |}.

Definition summary (s : SaleEvent) : json * Z := (tx_hash s, token_count s).

(** What a group contributes to the parsed sales: nothing when no token
    id was collected. *)
Definition group_summary (w : World) (g : json * list json) : list (json * Z) :=
  match tokens w (snd g) with
  | [] => []
  | _ :: _ => [(fst g, len (tokens w (snd g)))]
  end.


(** The event is not an object, or its [transaction] is there and is not
    an object (null, say). *)
Definition bad_transaction (event : json) : bool :=
  match event with
  | JDict d =>
      match assoc d "transaction" with
      | None | Some (JDict _) => false
      | Some _ => true
      end
  | _ => true
  end.

(** The number of events filed in the groups. *)
Definition filed (g : tx_groups) : nat :=
  fold_right Nat.add 0%nat (map (fun kv => length (snd kv)) g).

Definition sum_counts (sales : list SaleEvent) : Z :=
  fold_right Z.add 0 (map token_count sales).


(** The token ids a sale carries, whichever field holds them. *)
Definition sale_tokens (s : SaleEvent) : list string :=
  match token_ids s with
  | Some ids => ids
  | None => match token_id s with Some t => [t] | None => [] end
  end.

(** The invariant the data model announces: [token_ids] holds a non-empty
    sequence whose length is [token_count]. *)
Definition ids_invariant (s : SaleEvent) : Prop :=
  exists ids, token_ids s = Some ids /\ ids <> [] /\ token_count s = len ids.

(** *** States and traces *)

(** The state after [n] more consultations of the world and the effects
    [t], the watermark and the seen-set untouched. *)
Definition advance (st : state) (t : list effect) (n : nat) : state :=
  {| tick := tick st + n; trace := trace st ++ t;
     last_fetch_time := last_fetch_time st;
     processed_sales := processed_sales st |}.

(** *** Dispatch *)

Definition is_send (e : effect) : bool :=
  match e with ESend _ _ _ => true | _ => false end.

Definition is_lookup (e : effect) : bool :=
  match e with EGetAssets _ => true | _ => false end.

(** A message for the key [k] reached the channel. *)
Definition is_delivery (k : string) (e : effect) : bool :=
  match e with
  | ESend key _ None => String.eqb key k
  | _ => false
  end.

(** How many notifications for the key [k] were dispatched. *)
Definition delivered (k : string) (t : list effect) : nat :=
  length (List.filter (is_delivery k) t).

(** One notification for [k] may still be dispatched unless [k] is in
    the seen-set. *)
Definition pending (k : string) (st : state) : nat :=
  if bool_decide (k ∈ processed_sales st) then 0%nat else 1%nat.

(** The state with [k] added to the seen-set. *)
Definition mark (k : string) (st : state) : state :=
  {| tick := tick st; trace := trace st;
     last_fetch_time := last_fetch_time st;
     processed_sales := {[ k ]} ∪ processed_sales st |}.

(** Between two states of one run, for the key [k]: the seen-set only
    grows, no dispatched notification is lost from the trace, a
    notification is dispatched only against the budget [pending], and a
    newly dispatched key is in the seen-set. *)
Definition dispatch_step (k : string) (st st' : state) : Prop :=
  processed_sales st ⊆ processed_sales st' /\
  (delivered k (trace st) <= delivered k (trace st'))%nat /\
  (delivered k (trace st') + pending k st'
   <= delivered k (trace st) + pending k st)%nat /\
  ((delivered k (trace st) < delivered k (trace st'))%nat ->
   k ∈ processed_sales st').

(** Between two states of one run, a key enters the seen-set exactly
    when a notification for it is dispatched. *)
Definition seen_exactly (st st' : state) : Prop :=
  forall k, k ∈ processed_sales st' <->
            k ∈ processed_sales st \/
            (delivered k (trace st) < delivered k (trace st'))%nat.


(** An object that cannot be sliced: [x[:10]] raises [TypeError]. *)
Definition unsubscriptable (v : json) : bool :=
  match v with
  | JNull | JBool _ | JInt _ | JFloat _ => true
  | _ => false
  end.

(** [n] polling cycles in a row. *)
Fixpoint cycles (w : World) (n : nat) (st : state) : state :=
  match n with
  | O => st
  | S n' => cycles w n' (snd (poll_sales w st))
  end.

Definition is_query (e : effect) : bool :=
  match e with EGetEvents _ => true | _ => false end.

(** A log entry or the mark of a watermark assignment. *)
Definition is_note (e : effect) : bool :=
  match e with ELog _ _ | EWatermark _ => true | _ => false end.

(** The state after [n] more consultations and the effects [t], with the
    watermark [wm]. *)
Definition advance_to (st : state) (t : list effect) (n : nat) (wm : Z) : state :=
  {| tick := tick st + n; trace := trace st ++ t;
     last_fetch_time := wm; processed_sales := processed_sales st |}.

(** The keys of the notifications that reached the channel, in order. *)
Definition sent_keys (t : list effect) : list string :=
  flat_map (fun e => match e with ESend k _ None => [k] | _ => [] end) t.

(** The dedup keys of the sales, in order. *)
Definition keys_of (w : World) (sales : list SaleEvent) : list string :=
  flat_map (fun s => match sale_id w s with Ok k => [k] | Raise _ => [] end) sales.


(** The values assigned to the watermark, in order. *)
Definition watermarks (t : list effect) : list Z :=
  flat_map (fun e => match e with EWatermark z => [z] | _ => [] end) t.

(** A fetch that failed softly: no sale is returned and the watermark
    is neither changed nor assigned. *)
Definition soft_failure (st : state) (out : result (list SaleEvent) * state) : Prop :=
  fst out = Ok [] /\
  last_fetch_time (snd out) = last_fetch_time st /\
  watermarks (trace (snd out)) = watermarks (trace st).

(** The state in which the response of the events query is handled. *)
Definition queried_state (st : state) : state :=
  advance st [EGetEvents (last_fetch_time st)] 1.

(** *** Image batches *)

(** What one round of the batch loop does at index [i]. *)
Definition batch_effects (ids : list string) (i : nat) : list effect :=
  EGetAssets (slice ids i (i + batch_size))
  :: (if (i + batch_size <? length ids)%nat then [ESleep 100] else []).

(** Batches of lookups with a pause between two consecutive ones and none
    after the last. *)
Fixpoint paced (batches : list (list string)) : list effect :=
  match batches with
  | [] => []
  | b :: bs =>
      match bs with
      | [] => [EGetAssets b]
      | _ :: _ => EGetAssets b :: ESleep 100 :: paced bs
      end
  end.

(** The slices the batch loop takes from the truncated input. *)
Definition batches (ids : list string) : list (list string) :=
  let ids := firstn 20 ids in
  map (fun i => slice ids i (i + batch_size)) (range (length ids) batch_size).

(** The URLs kept from the values of a batch: the non-empty texts. *)
Definition kept (values : list json) : list string :=
  flat_map (fun r => match r with
                     | JStr s => if String.eqb s "" then [] else [s]
                     | _ => []
                     end) values.

(** The value of the look-up of one token at tick [n]. *)
Definition lookup (w : World) (n : nat) (token_id : string) : json :=
  _fetch_single_image (http_asset w n token_id).

(** The URLs of consecutive batches, the first looked up at tick [n]. *)
Fixpoint batch_images (w : World) (n : nat) (bs : list (list string)) : list string :=
  match bs with
  | [] => []
  | b :: bs' => kept (map (lookup w n) b) ++ batch_images w (S n) bs'
  end.



End Vocabulary.

(* ===================================================================== *)
(** ** Sample worlds and inputs                                           *)
(* ===================================================================== *)

Module Samples.
Import Py Discord Runtime SalesFetcher Bot Vocabulary.

(** A world where every asset has media, every message is delivered and
    the marketplace is unreachable. *)
Definition calm : World :=
  {| py_repr := fun _ => "?";
     clock := fun n => Z.of_nat n;
     http_events := fun _ _ => Failed IOError;
     http_asset := fun _ t =>
       Response 200 (Ok (JDict [("image_url", JStr ("https://img/" +:+ t))])) (Ok "");
     client_ready := fun _ => true;
     channel_found := fun _ => true;
     channel_send := fun _ _ => None |}.

Definition fresh : state :=
  {| tick := 0; trace := []; last_fetch_time := 0; processed_sales := ∅ |}.

Definition ids23 : list string := map (fun n => str_of_int (Z.of_nat n)) (seq 1 23).


(** A raw sale event. *)
Definition leg (h token symbol : string) (price : json) : json :=
  JDict [("transaction", JDict [("transaction_hash", JStr h)]);
         ("asset", JDict [("token_id", JStr token)]);
         ("payment_token", JDict [("symbol", JStr symbol)]);
         ("winner_account", JDict [("address", JStr "0xb0b")]);
         ("seller", JDict [("address", JStr "0xa11ce")]);
         ("total_price", price)].

(** One transaction buying one token. *)
Definition single_response : json :=
  response [leg "0xabc" "7" "ETH" (JStr "1000")].

Definition single_sale : SaleEvent :=
  {| tx_hash := JStr "0xabc"; buyer := JStr "0xb0b"; seller := JStr "0xa11ce";
     token_id := Some "7"; token_ids := None; token_count := 1;
     total_price := 1000; SalesFetcher.timestamp := Some 0 |}.

(** A world like [calm] whose channel refuses the message sent at tick
    1 (the first message of a run from [fresh]). *)
Definition flaky : World :=
  {| py_repr := py_repr calm; clock := clock calm;
     http_events := http_events calm; http_asset := http_asset calm;
     client_ready := client_ready calm; channel_found := channel_found calm;
     channel_send := fun n _ => if (n =? 1)%nat then Some HTTPException else None |}.

(** A sweep of two tokens in another transaction. *)
Definition sweep_sale : SaleEvent :=
  {| tx_hash := JStr "0xdef"; buyer := JStr "0xb0b"; seller := JStr "0xa11ce";
     token_id := None; token_ids := Some ["8"; "9"]; token_count := 2;
     total_price := 2000; SalesFetcher.timestamp := Some 1 |}.

(** A world like [calm] whose marketplace answers every events query
    with [single_response]. *)
Definition market : World :=
  {| py_repr := py_repr calm; clock := clock calm;
     http_events := fun _ _ => Response 200 (Ok single_response) (Ok "");
     http_asset := http_asset calm;
     client_ready := client_ready calm; channel_found := channel_found calm;
     channel_send := channel_send calm |}.

(** [single_sale] as parsed one tick later. *)
Definition listed_sale : SaleEvent :=
  {| tx_hash := JStr "0xabc"; buyer := JStr "0xb0b"; seller := JStr "0xa11ce";
     token_id := Some "7"; token_ids := None; token_count := 1;
     total_price := 1000; SalesFetcher.timestamp := Some 1 |}.

(** An event whose transaction is null. *)
Definition null_tx : json :=
  JDict [("transaction", JNull);
         ("asset", JDict [("token_id", JStr "3")])].

(** Three events of one transaction. *)
Definition one_tx_events : list json :=
  [leg "0xabc" "11" "ETH" (JStr "100"); leg "0xabc" "12" "ETH" (JStr "200");
   leg "0xabc" "13" "USDC" (JStr "5")].

(** A native leg priced by a float beyond the float range. *)
Definition infinite_leg : json :=
  leg "0xabc" "1" "ETH" (JFloat (S754_infinity false)).

(** A response whose second event has a null transaction, and a world
    whose marketplace answers with it. *)
Definition poisoned_response : list (string * json) :=
  [("asset_events", JList [leg "0xabc" "7" "ETH" (JStr "1000"); null_tx])].

Definition poisoned : World :=
  {| py_repr := py_repr calm; clock := clock calm;
     http_events := fun _ _ => Response 200 (Ok (JDict poisoned_response)) (Ok "");
     http_asset := http_asset calm;
     client_ready := client_ready calm; channel_found := channel_found calm;
     channel_send := channel_send calm |}.

(** A sale whose buyer address came as null. *)
Definition anonymous_sale : SaleEvent :=
  {| tx_hash := JStr "0xabc"; buyer := JNull; seller := JStr "0xa11ce";
     token_id := Some "7"; token_ids := None; token_count := 1;
     total_price := 1000; SalesFetcher.timestamp := Some 0 |}.

(** A world like [calm] whose client is never ready. *)
Definition asleep : World :=
  {| py_repr := py_repr calm; clock := clock calm;
     http_events := http_events calm; http_asset := http_asset calm;
     client_ready := fun _ => false; channel_found := channel_found calm;
     channel_send := channel_send calm |}.




(** A complete environment, and one that leaves the contract address
    out. *)
Definition env_complete : Startup.Env :=
  {| Startup.DISCORD_BOT_TOKEN := Some "secret";
     Startup.DISCORD_CHANNEL_ID := Some "42";
     Startup.NFT_CONTRACT_ADDRESS := Some "0xABCdef";
     Startup.OPENSEA_API_KEY := None;
     Startup.POLL_INTERVAL_SECONDS := None |}.


(** The loaded configuration and fetcher of [env_complete] at time 0. *)
Definition cfg_complete : Startup.Config :=
  {| Startup.BOT_TOKEN := Some "secret"; Startup.CHANNEL_ID := 42;
     Startup.CONTRACT_ADDRESS := Some "0xABCdef"; Startup.API_KEY := "";
     Startup.POLL_INTERVAL := 10 |}.

Definition fetcher_complete : Startup.Fetcher :=
  {| Startup.contract_address := "0xabcdef"; Startup.api_key := "";
     Startup.last_fetch_time := -120000000 |}.

End Samples.

(* ===================================================================== *)
(** ** Properties                                                         *)
(* ===================================================================== *)

Import Py Discord Runtime SalesFetcher Bot Vocabulary.

(** The built-ins stay folded under [simpl]. *)
Arguments truthy : simpl never.
Arguments py_int : simpl never.
Arguments py_str : simpl never.
Arguments eq_str : simpl never.
Arguments key_eq : simpl never.
Arguments hashable : simpl never.
Arguments float_div : simpl never.
Arguments format_price : simpl never.
Arguments leg_step : simpl never.
Arguments group_step : simpl never.
Arguments sale_of_group : simpl never.
Arguments sales_step : simpl never.
Arguments batch_step : simpl never.
Arguments fetch_nft_images : simpl never.
Arguments create_sale_embed : simpl never.
Arguments process_sale : simpl never.
Arguments _parse_sales_response : simpl never.
Arguments fetch_recent_sales : simpl never.

(** *** Sweep classification *)

(** C8.  For a token count [t] (a length, so at least 1) the category is
    single exactly when [t = 1], mini exactly when [2 <= t <= 5], big
    exactly when [6 <= t <= 10] and huge exactly when [11 <= t]: the four
    cases are exclusive and the boundaries 1/2, 5/6 and 10/11 are exact. *)
Theorem sweep_category_exact (t : Z) (Hcount : 1 <= t) :
  (get_sweep_category t = "single" <-> t = 1) /\
  (get_sweep_category t = "mini" <-> 2 <= t <= 5) /\
  (get_sweep_category t = "big" <-> 6 <= t <= 10) /\
  (get_sweep_category t = "huge" <-> 11 <= t).
Proof.
  unfold get_sweep_category.
  destruct (Z.eqb_spec t 1) as [-> | Hne]; simpl.
  { repeat split; intros; try lia; try discriminate. }
  destruct (Z.leb_spec 2 t), (Z.leb_spec t 5); simpl;
    try (repeat split; intros; try lia; discriminate).
  destruct (Z.leb_spec 6 t), (Z.leb_spec t 10); simpl;
    repeat split; intros; try lia; try discriminate.
Qed.

Lemma sweep_category_exact_witness :
  1 <= 6 /\
  ((get_sweep_category 6 = "single" <-> 6 = 1) /\
   (get_sweep_category 6 = "mini" <-> 2 <= 6 <= 5) /\
   (get_sweep_category 6 = "big" <-> 6 <= 6 <= 10) /\
   (get_sweep_category 6 = "huge" <-> 11 <= 6)).
Proof.
  split; [lia | apply (sweep_category_exact 6); lia].
Defined.

(** *** Price formatting *)

Section Text.

Lemma append_cons a s t : String a s +:+ t = String a (s +:+ t).
Proof. reflexivity. Qed.

Lemma append_nil t : "" +:+ t = t.
Proof. reflexivity. Qed.

Ltac push_append := rewrite ?append_cons, ?append_nil.

Lemma count_char_app c s t :
  count_char c (s +:+ t) = (count_char c s + count_char c t)%nat.
Proof.
  induction s as [| a s IH]; push_append; simpl; [reflexivity |].
  destruct (Ascii.eqb a c); simpl; rewrite IH; reflexivity.
Qed.

Lemma count_char_repeat c k : count_char c (repeat_char c k) = k.
Proof.
  induction k as [| k IH]; simpl; [reflexivity |].
  rewrite Ascii.eqb_refl, IH; reflexivity.
Qed.

Lemma count_char_repeat_other c d k :
  Ascii.eqb d c = false -> count_char c (repeat_char d k) = O.
Proof.
  intros Hne. induction k as [| k IH]; simpl; [reflexivity |].
  rewrite Hne; exact IH.
Qed.

Lemma append_empty_r s : s +:+ "" = s.
Proof.
  induction s as [| a s IH]; push_append; [reflexivity | f_equal; exact IH].
Qed.

(** What [rstrip] removes is a run of the stripped character. *)
Lemma rstrip_decompose c s : exists k, s = rstrip c s +:+ repeat_char c k.
Proof.
  induction s as [| a s [k IH]]; simpl.
  - exists O; reflexivity.
  - destruct (rstrip c s) as [| b r] eqn:Hr.
    + rewrite append_nil in IH.
      destruct (Ascii.eqb_spec a c) as [-> | Hne].
      * exists (S k). push_append. simpl. now rewrite <- IH.
      * exists k. push_append. now rewrite <- IH.
    + exists k. rewrite append_cons. now rewrite <- IH.
Qed.

(** What [rstrip] leaves does not end in the stripped character. *)
Lemma rstrip_last c s : last_char (rstrip c s) <> Some c.
Proof.
  induction s as [| a s IH]; simpl; [discriminate |].
  destruct (rstrip c s) as [| b r] eqn:Hr.
  - destruct (Ascii.eqb_spec a c) as [-> | Hne]; simpl; congruence.
  - exact IH.
Qed.

(** Stripping zeros and then points from a text with at most one point
    leaves a trimmed text. *)
Lemma rstrip_zero_point_trimmed u :
  (count_char "." u <= 1)%nat -> trimmed (rstrip "." (rstrip "0" u)) = true.
Proof.
  intros Hdots.
  set (r := rstrip "0" u). set (t := rstrip "." r).
  destruct (rstrip_decompose "0" u) as [k Hu]. fold r in Hu.
  destruct (rstrip_decompose "." r) as [j Hr]. fold t in Hr.
  pose proof (rstrip_last "." r) as Hlast_t. fold t in Hlast_t.
  pose proof (rstrip_last "0" u) as Hlast_r. fold r in Hlast_r.
  unfold trimmed.
  destruct (last_char t) as [c |] eqn:Hc; [| reflexivity].
  destruct (Ascii.eqb_spec c ".") as [-> | Hnp]; [congruence |].
  destruct (Ascii.eqb_spec c "0") as [-> | Hnz]; [| reflexivity].
  destruct j as [| j].
  - simpl in Hr. rewrite append_empty_r in Hr. congruence.
  - apply Nat.eqb_eq.
    assert (Hcount : count_char "." u = (count_char "." t + S j)%nat).
    { rewrite Hu, count_char_app, Hr, count_char_app, count_char_repeat.
      rewrite count_char_repeat_other by reflexivity. lia. }
    lia.
Qed.

Lemma count_point_uint d : count_char "." (NilEmpty.string_of_uint d) = O.
Proof. induction d; simpl; auto. Qed.

Lemma count_point_nat_part n : count_char "." (str_of_nat_part n) = O.
Proof.
  unfold str_of_nat_part, NilZero.string_of_uint.
  destruct (N.to_uint (Z.to_N n)) eqn:Hd; try reflexivity;
    rewrite <- Hd at 1; try apply count_point_uint;
    rewrite Hd; apply (count_point_uint).
Qed.

Lemma count_point_zfill k s :
  count_char "." s = O -> count_char "." (zfill k s) = O.
Proof.
  intros Hs. unfold zfill. rewrite count_char_app, Hs.
  induction (k - String.length s)%nat as [| m IH]; simpl; [reflexivity | exact IH].
Qed.

Lemma count_point_fixed4 s n : count_char "." (fixed4 s n) = 1%nat.
Proof.
  unfold fixed4. rewrite !count_char_app.
  rewrite count_point_nat_part, count_point_zfill by apply count_point_nat_part.
  destruct s; reflexivity.
Qed.

Lemma count_point_format_4f x : (count_char "." (format_4f x) <= 1)%nat.
Proof.
  destruct x as [s | s | | s m e]; simpl.
  - rewrite count_point_fixed4; lia.
  - destruct s; simpl; lia.
  - lia.
  - rewrite count_point_fixed4; lia.
Qed.

End Text.

(** C4.  Whenever [format_price] renders a non-negative amount of wei, the
    text is trimmed: it never ends in a decimal point, and never in a zero
    digit that follows a decimal point.  One unit of ether renders as "1",
    1.2 units as "1.2", nothing as "0".  (The conversion of the amount to
    a float raises for amounts beyond the float range; this is the
    only way the call does not return.) *)
Theorem format_price_trimmed :
  (forall w s, 0 <= w -> format_price w = Ok s -> trimmed s = true) /\
  (forall w e, format_price w = Raise e ->
     e = OverflowError /\ float_of_int w = Raise OverflowError) /\
  format_price 1000000000000000000 = Ok "1" /\
  format_price 1200000000000000000 = Ok "1.2" /\
  format_price 0 = Ok "0".
Proof.
  split; [| split; [| repeat split; vm_compute; reflexivity]].
  - intros w s _ Hs. unfold format_price in Hs.
    destruct (float_of_int w) as [x | e]; cbv [rbind] in Hs; [| discriminate].
    injection Hs as <-. apply rstrip_zero_point_trimmed, count_point_format_4f.
  - intros w e He. unfold format_price in He.
    destruct (float_of_int w) as [x | e0] eqn:Hf; cbv [rbind] in He;
      [discriminate |].
    injection He as <-. unfold float_of_int in Hf.
    destruct (binary_normalize prec emax w 0 false); try discriminate.
    injection Hf as <-. split; reflexivity.
Qed.

Lemma format_price_trimmed_witness :
  0 <= 1500000000000000000 /\
  format_price 1500000000000000000 = Ok "1.5" /\
  trimmed "1.5" = true.
Proof.
  split; [lia |]. split; [vm_compute; reflexivity |].
  apply (proj1 format_price_trimmed 1500000000000000000 "1.5");
    [lia | vm_compute; reflexivity].
Defined.

(** *** Image batching *)

Lemma advance_advance st t n t' n' :
  advance (advance st t n) t' n' = advance st (t ++ t') (n + n').
Proof.
  unfold advance; simpl. f_equal; [lia | now rewrite <- app_assoc].
Qed.

Lemma advance_zero st : advance st [] 0 = st.
Proof.
  destruct st; unfold advance; simpl. f_equal; [lia | apply app_nil_r].
Qed.

Lemma push_advance e st : push e st = advance st [e] 0.
Proof. destruct st; unfold push, advance; simpl. f_equal; lia. Qed.

Lemma next_tick_advance st : next_tick st = advance st [] 1.
Proof.
  destruct st; unfold next_tick, advance; simpl.
  f_equal; [lia | now rewrite app_nil_r].
Qed.

Lemma advance_eq st t t' n n' :
  t = t' -> n = n' -> advance st t n = advance st t' n'.
Proof. now intros -> ->. Qed.

Ltac same_state :=
  match goal with
  | |- (_, ?a) = (_, ?b) =>
      replace a with b;
      [reflexivity
      | apply advance_eq; [simpl; rewrite <- ?app_assoc; reflexivity | lia]]
  end.

Ltac to_advance :=
  rewrite ?push_advance, ?next_tick_advance, ?advance_advance; simpl app.

Section Batching.
Variable w : World.

Lemma batch_step_run ids images i st :
  exists images',
    batch_step w ids images i st = (Ok images', advance st (batch_effects ids i) 1).
Proof.
  unfold batch_step, bind, gather_images, sleep, emit, ret, batch_effects.
  destruct (i + batch_size <? length ids)%nat; eexists; to_advance; reflexivity.
Qed.

Lemma batch_loop_run ids idxs : forall images st,
  exists images',
    foldM (batch_step w ids) idxs images st
    = (Ok images', advance st (flat_map (batch_effects ids) idxs) (length idxs)).
Proof.
  induction idxs as [| i idxs IH]; intros images st; simpl.
  - exists images. unfold ret. now rewrite advance_zero.
  - unfold bind.
    destruct (batch_step_run ids images i st) as [images1 ->].
    destruct (IH images1 (advance st (batch_effects ids i) 1)) as [images2 ->].
    exists images2. now rewrite advance_advance.
Qed.

(** Arithmetic of [range(0, n, 5)]: index [k * 5] is drawn exactly when it
    lies below [n]. *)
Lemma range_count n k : (k < (n + batch_size - 1) / batch_size <-> k * batch_size < n)%nat.
Proof.
  unfold batch_size.
  pose proof (Nat.div_mod_eq (n + 5 - 1) 5) as Hdiv.
  pose proof (Nat.mod_upper_bound (n + 5 - 1) 5) as Hmod.
  lia.
Qed.

Lemma slice_batch (ids : list string) i :
  slice ids i (i + batch_size) = take batch_size (drop i ids).
Proof. unfold slice. f_equal. lia. Qed.

Lemma batches_concat (ids : list string) c :
  concat (map (fun i => slice ids i (i + batch_size))
              (map (fun k => (k * batch_size)%nat) (seq 0 c)))
  = take (c * batch_size) ids.
Proof.
  induction c as [| c IH]; [reflexivity |].
  rewrite seq_S, !map_app, concat_app, IH. simpl.
  rewrite app_nil_r, slice_batch, take_take_drop. f_equal.
  unfold batch_size. lia.
Qed.

Lemma batches_paced (ids : list string) c : forall r k,
  (k + r = c)%nat ->
  (forall j, j < c -> (j * batch_size + batch_size <? length ids) = (S j <? c))%nat ->
  flat_map (batch_effects ids) (map (fun k => (k * batch_size)%nat) (seq k r))
  = paced (map (fun i => slice ids i (i + batch_size))
               (map (fun k => (k * batch_size)%nat) (seq k r))).
Proof.
  induction r as [| r IH]; intros k Hk Hlt; [reflexivity |].
  cbn [seq map flat_map].
  rewrite (IH (S k)) by (auto; lia).
  unfold batch_effects. rewrite Hlt by lia.
  destruct r as [| r].
  - replace (S k <? c)%nat with false; [reflexivity |].
    symmetry; apply Nat.ltb_ge; lia.
  - replace (S k <? c)%nat with true by (symmetry; apply Nat.ltb_lt; lia).
    reflexivity.
Qed.

(** The enricher on a list of ids: it returns, and its effects are the
    paced batches. *)
Lemma fetch_nft_images_run ids st :
  exists images,
    fetch_nft_images w (Some ids) st
    = (Ok images, advance st (paced (batches ids)) (length (batches ids))).
Proof.
  unfold fetch_nft_images, try_except, batches.
  set (l := take 20 ids).
  destruct (batch_loop_run l (range (length l) batch_size) [] st) as [images ->].
  exists images. f_equal. f_equal.
  - unfold range. apply batches_paced with (c := ((length l + batch_size - 1) / batch_size)%nat).
    + lia.
    + intros j Hj. apply range_count in Hj.
      destruct (Nat.ltb_spec (S j) ((length l + batch_size - 1) / batch_size)) as [Hlt | Hge].
      * apply range_count in Hlt. apply Nat.ltb_lt. lia.
      * apply Nat.ltb_ge.
        destruct (Nat.le_gt_cases (length l) (j * batch_size + batch_size)) as [Hle | Hgt];
          [exact Hle |].
        exfalso. assert (S j < (length l + batch_size - 1) / batch_size)%nat; [| lia].
        apply range_count. lia.
  - now rewrite !length_map.
Qed.

Lemma batches_cover ids : concat (batches ids) = take 20 ids.
Proof.
  unfold batches, range. rewrite batches_concat. apply take_ge.
  unfold batch_size.
  pose proof (Nat.div_mod_eq (length (take 20 ids) + 5 - 1) 5) as Hdiv.
  pose proof (Nat.mod_upper_bound (length (take 20 ids) + 5 - 1) 5) as Hmod.
  lia.
Qed.


End Batching.



(** *** The sale aggregator *)

Ltac break_match :=
  match goal with
  | |- context [match ?x with _ => _ end] =>
      lazymatch x with
      | context [match _ with _ => _ end] => fail
      | _ => destruct x eqn:?
      end
  | H : context [match ?x with _ => _ end] |- _ =>
      lazymatch x with
      | context [match _ with _ => _ end] => fail
      | _ => destruct x eqn:?
      end
  end.

Section Aggregator.
Variable w : World.


(** One turn of the loop over the legs either raises or adds the token id
    and the value of the leg. *)
Lemma leg_step_inv ids total e r :
  leg_step w (ids, total) e = Ok r ->
  r = (ids ++ leg_tokens w e, total + leg_value e).
Proof.
  unfold leg_step, leg_tokens, token_of, leg_value, native_leg, leg_price, rbind.
  intros H.
  repeat (break_match; try discriminate; simplify_eq; simpl in *);
    rewrite ?app_nil_r, ?Z.add_0_r; try reflexivity; try congruence.
Qed.


Lemma legs_inv events : forall ids total r,
  rfold (leg_step w) events (ids, total) = Ok r ->
  r = (ids ++ tokens w events, total + total_value events).
Proof.
  induction events as [| e events IH]; intros ids total r H; simpl in *.
  - injection H as <-. unfold tokens, total_value; simpl.
    now rewrite app_nil_r, Z.add_0_r.
  - unfold rbind in H.
    destruct (leg_step w (ids, total) e) as [r1 |] eqn:Hstep; [| discriminate].
    apply leg_step_inv in Hstep; subst r1.
    apply IH in H; subst r. unfold tokens, total_value; simpl.
    rewrite <- app_assoc. f_equal. lia.
Qed.


(** Every sale the second loop emits is [sale_of] its group, read at the
    clock of the moment; nothing else touches the state. *)
Lemma sale_of_group_inv k events st s st' :
  sale_of_group w (k, events) st = (Ok (Some s), st') ->
  tokens w events <> [] /\ s = sale_of w k events (clock w (tick st)) /\
  st' = next_tick st.
Proof.
  unfold sale_of_group. destruct events as [| first rest]; [discriminate |].
  unfold bind, lift, ret, utcnow. intros H.
  destruct (get first "winner_account" (JDict [])) as [winner |] eqn:Hw;
    [| discriminate].
  destruct (get winner "address" (JStr "Unknown")) as [b |] eqn:Hb;
    [| discriminate].
  destruct (get first "seller" (JDict [])) as [account |] eqn:Hs;
    [| discriminate].
  destruct (get account "address" (JStr "Unknown")) as [a |] eqn:Ha;
    [| discriminate].
  destruct (rfold (leg_step w) (first :: rest) ([], 0)) as [[ids total] |] eqn:Hlegs;
    [| discriminate].
  apply legs_inv in Hlegs. rewrite app_nil_l, Z.add_0_l in Hlegs.
  injection Hlegs as -> ->.
  unfold sale_of, party. simpl hd. rewrite Hw, Hb, Hs, Ha.
  change (leg_tokens w first ++ tokens w rest) with (tokens w (first :: rest)) in H.
  destruct (tokens w (first :: rest)) as [| t ts] eqn:Htok; [discriminate |].
  injection H as <- <-. repeat split. discriminate.
Qed.

Lemma sale_of_group_quiet g st r st' :
  sale_of_group w g st = (r, st') ->
  match r with Ok (Some _) => True | _ => st' = st end.
Proof.
  destruct g as [k events].
  unfold sale_of_group, bind, lift, ret, utcnow.
  intros H.
  repeat (break_match; try discriminate; simplify_eq); auto.
Qed.


Lemma sales_loop_inv groups : forall acc st sales st',
  foldM (sales_step w) groups acc st = (Ok sales, st') ->
  exists emitted,
    sales = acc ++ emitted /\
    forall s, In s emitted ->
      exists k events now,
        In (k, events) groups /\ tokens w events <> [] /\ s = sale_of w k events now.
Proof.
  induction groups as [| [k events] groups IH]; intros acc st sales st' H; simpl in H.
  - injection H as <- <-. exists []. split; [now rewrite app_nil_r | intros ? []].
  - unfold bind at 1 in H. unfold sales_step at 1 in H. unfold bind at 1 in H.
    destruct (sale_of_group w (k, events) st) as [[[s0 |] | e] st1] eqn:Hg;
      [| | discriminate].
    + apply sale_of_group_inv in Hg. destruct Hg as (Hne & -> & ->).
      unfold ret at 1 in H. apply IH in H. destruct H as (emitted & -> & Hem).
      exists (sale_of w k events (clock w (tick st)) :: emitted).
      split; [now rewrite <- app_assoc |].
      intros s [<- | Hs].
      * exists k, events, (clock w (tick st)). simpl; auto.
      * destruct (Hem s Hs) as (k' & ev' & now & Hin & Hne' & ->).
        exists k', ev', now. simpl; auto.
    + unfold ret at 1 in H. apply IH in H. destruct H as (emitted & -> & Hem).
      exists emitted. split; [reflexivity |].
      intros s Hs. destruct (Hem s Hs) as (k' & ev' & now & Hin & Hne' & ->).
      exists k', ev', now. simpl; auto.
Qed.

Lemma sales_loop_state groups : forall acc st r st',
  foldM (sales_step w) groups acc st = (r, st') ->
  exists n, st' = advance st [] n.
Proof.
  induction groups as [| g groups IH]; intros acc st r st' H; simpl in H.
  - injection H as <- <-. exists O. now rewrite advance_zero.
  - unfold bind at 1 in H. unfold sales_step at 1 in H. unfold bind at 1 in H.
    destruct (sale_of_group w g st) as [[o | e] st1] eqn:Hg.
    + unfold ret at 1 in H. apply IH in H. destruct H as [n ->].
      pose proof (sale_of_group_quiet g st _ _ Hg) as Hq.
      destruct o as [s0 |].
      * destruct g as [k events]. apply sale_of_group_inv in Hg.
        destruct Hg as (_ & _ & ->). exists (1 + n)%nat.
        now rewrite next_tick_advance, advance_advance.
      * subst st1. now exists n.
    + injection H as <- <-.
      pose proof (sale_of_group_quiet g st _ _ Hg) as Hq. simpl in Hq. subst st1.
      exists O. now rewrite advance_zero.
Qed.

(** Every sale of a parsed response is [sale_of] some group of events
    that carries a token id. *)
Lemma parse_emitted data st sales st' :
  _parse_sales_response w data st = (Ok sales, st') ->
  forall s, In s sales ->
    exists k events now, tokens w events <> [] /\ s = sale_of w k events now.
Proof.
  unfold _parse_sales_response, bind, lift, ret. intros H s Hs.
  repeat (break_match; try discriminate; simplify_eq); try (now destruct Hs).
  match goal with
  | H : foldM _ _ _ _ = _ |- _ => apply sales_loop_inv in H
  end.
  destruct H as (emitted & -> & Hem). simpl in Hs.
  destruct (Hem s Hs) as (k & events & now & _ & Hne & ->).
  now exists k, events, now.
Qed.

(** Parsing reads the clock and does nothing else to the state. *)
Lemma parse_state data st r st' :
  _parse_sales_response w data st = (r, st') -> exists n, st' = advance st [] n.
Proof.
  unfold _parse_sales_response, bind, lift, ret. intros H.
  repeat (break_match; try discriminate; simplify_eq);
    try (exists O; now rewrite advance_zero).
  all: match goal with
       | H : foldM _ _ _ _ = _ |- _ => now apply sales_loop_state in H
       end.
Qed.

Lemma sale_of_fields k events now :
  tokens w events <> [] ->
  let s := sale_of w k events now in
  sale_tokens s = tokens w events /\
  token_count s = len (tokens w events) /\
  1 <= token_count s /\
  (token_count s = 1 -> token_ids s = None /\ exists t, token_id s = Some t) /\
  (token_count s <> 1 ->
     token_id s = None /\ token_ids s = Some (tokens w events)).
Proof.
  intros Hne. unfold sale_of, sale_tokens; simpl.
  destruct (tokens w events) as [| a [| b l]]; [congruence | |].
  - change (len [a]) with 1. simpl.
    split; [reflexivity |]. split; [reflexivity |]. split; [lia |].
    split; [intros _; eauto | intros H; now contradiction H].
  - unfold len. simpl length.
    destruct (Z.eqb_spec (Z.of_nat (S (S (length l)))) 1) as [Heq | _]; [lia |].
    destruct (Z.ltb_spec 1 (Z.of_nat (S (S (length l))))) as [_ | Hge]; [| lia].
    split; [reflexivity |]. split; [reflexivity |]. split; [lia |].
    split; [intros H; lia | intros _; auto].
Qed.

End Aggregator.

(** C1, as the code has it.  Every sale of a parsed response carries at
    least one token id and its [token_count] is their number; two or more
    ids are held by [token_ids] (and [token_id] is [None]); a single id is
    held by [token_id], and [token_ids] is then [None]. *)
Theorem parse_token_fields (w : World) (data : json) (st st' : state)
    (sales : list SaleEvent) (s : SaleEvent) :
  _parse_sales_response w data st = (Ok sales, st') ->
  In s sales ->
  sale_tokens s <> [] /\
  token_count s = len (sale_tokens s) /\
  (token_count s = 1 -> token_ids s = None /\ exists t, token_id s = Some t) /\
  (token_count s <> 1 -> token_id s = None /\ token_ids s = Some (sale_tokens s)).
Proof.
  intros Hparse Hs.
  destruct (parse_emitted w data st sales st' Hparse s Hs) as (k & events & now & Hne & ->).
  destruct (sale_of_fields w k events now Hne) as (Htok & Hcount & _ & Hone & Hmany).
  rewrite Htok. repeat split; auto.
  - now apply Hone.
  - now apply Hone.
  - now apply Hmany.
  - now apply Hmany.
Qed.

Lemma parse_token_fields_witness :
  sale_tokens Samples.single_sale <> [] /\
  token_count Samples.single_sale = len (sale_tokens Samples.single_sale) /\
  (token_count Samples.single_sale = 1 ->
     token_ids Samples.single_sale = None /\
     exists t, token_id Samples.single_sale = Some t) /\
  (token_count Samples.single_sale <> 1 ->
     token_id Samples.single_sale = None /\
     token_ids Samples.single_sale = Some (sale_tokens Samples.single_sale)).
Proof.
  apply (parse_token_fields Samples.calm Samples.single_response Samples.fresh
           (advance Samples.fresh [] 1) [Samples.single_sale]).
  - vm_compute. reflexivity.
  - left. reflexivity.
Defined.

(** C1, as stated, fails: the sale parsed from one event with one token
    has no [token_ids] sequence at all. *)
Lemma parse_single_counterexample :
  fst (_parse_sales_response Samples.calm Samples.single_response Samples.fresh)
  = Ok [Samples.single_sale] /\
  token_ids Samples.single_sale = None /\
  ~ ids_invariant Samples.single_sale.
Proof.
  split; [vm_compute; reflexivity |]. split; [reflexivity |].
  intros (ids & Hids & _). discriminate.
Qed.

(** *** Grouping by transaction *)

Section Grouping.
Variable w : World.

Lemma group_step_tx g e v :
  tx_of e = Ok v ->
  group_step g e
  = if negb (truthy v) then Ok g
    else if negb (hashable v) then Raise TypeError
    else Ok (group_add g v e).
Proof.
  unfold tx_of, group_step, rbind. intros H.
  destruct (get e "transaction" (JDict [])) as [tx |]; [| discriminate].
  now rewrite H.
Qed.

(** On a well-shaped event the first loop files the event under its
    transaction, or drops it when it has none. *)
Lemma group_step_ok g e :
  event_ok e = true ->
  group_step g e
  = Ok (match tx_key e with
        | Some h => group_add g (JStr h) e
        | None => g
        end).
Proof.
  intros Hok. unfold event_ok in Hok.
  repeat (apply andb_prop in Hok; destruct Hok as [Hok ?]).
  unfold tx_key.
  destruct (tx_of e) as [v |] eqn:Htx; [| discriminate].
  rewrite (group_step_tx g e v Htx).
  destruct v as [| | | | h | |];
    try match goal with
        | H : negb ?b = true |- _ => rewrite H; reflexivity
        end.
  unfold truthy, hashable. destruct (String.eqb h ""); reflexivity.
Qed.


Lemma rfold_app {A B} (f : A -> B -> result A) l1 l2 a :
  rfold f (l1 ++ l2) a = rbind (rfold f l1 a) (rfold f l2).
Proof.
  revert a. induction l1 as [| x l1 IH]; intros a; simpl; [reflexivity |].
  destruct (f a x); simpl; auto.
Qed.

Lemma key_is_keyed_l a b e : key_is a e = true -> keyed a b e = true.
Proof.
  unfold key_is, keyed. destruct (tx_key e); [| discriminate].
  intros ->. reflexivity.
Qed.









End Grouping.

Section Parsing.
Variable w : World.

Lemma leg_tokens_length e : (length (leg_tokens w e) <= 1)%nat.
Proof. unfold leg_tokens. destruct (token_of e); simpl; lia. Qed.

Lemma tokens_length F : (length (tokens w F) <= length F)%nat.
Proof.
  induction F as [| e F IH]; simpl; [lia |].
  change (tokens w (e :: F)) with (leg_tokens w e ++ tokens w F).
  rewrite length_app. pose proof (leg_tokens_length e). lia.
Qed.





Lemma parse_response d evs st :
  assoc d "asset_events" = Some (JList evs) ->
  _parse_sales_response w (JDict d) st
  = match rfold group_step evs [] with
    | Ok G => foldM (sales_step w) G [] st
    | Raise e => (Raise e, st)
    end.
Proof.
  intros Hd. unfold _parse_sales_response, bind, lift, contains, get, iterate.
  rewrite Hd. cbn. destruct (rfold group_step evs []); reflexivity.
Qed.






End Parsing.





(** *** Price aggregation *)

Section Prices.
Variable w : World.

Lemma tx_key_key_is h e : tx_key e = Some h -> key_is h e = true.
Proof. unfold key_is. intros ->. apply String.eqb_refl. Qed.



End Prices.



(** *** The dispatch loop *)

Section Dispatching.
Variable w : World.

Lemma paced_no_send bs : List.filter is_send (paced bs) = [].
Proof.
  induction bs as [| b bs IH]; [reflexivity |].
  destruct bs as [| b' bs]; [reflexivity |].
  change (paced (b :: b' :: bs)) with (EGetAssets b :: ESleep 100 :: paced (b' :: bs)).
  simpl List.filter. exact IH.
Qed.

(** The enricher never raises and never sends; given [None] it looks
    nothing up and returns no image. *)
Lemma fetch_nft_images_effects ids st :
  exists images t n,
    fetch_nft_images w ids st = (Ok images, advance st t n) /\
    List.filter is_send t = [] /\
    (ids = None -> images = [] /\ List.filter is_lookup t = []).
Proof.
  destruct ids as [ids |].
  - destruct (fetch_nft_images_run w ids st) as [images Hrun].
    exists images, (paced (batches ids)), (length (batches ids)).
    split; [exact Hrun |]. split; [apply paced_no_send | discriminate].
  - exists [], [ELog Error (MsgImagesError TypeError)], 0%nat.
    split; [| split; [reflexivity | intros _; split; reflexivity]].
    unfold fetch_nft_images, try_except, raise, bind, log, emit, ret.
    now rewrite push_advance.
Qed.

(** Building the embed reads the clock at most once; its image is the
    first of the images it is given. *)
Lemma create_sale_embed_run sale images st r st' :
  create_sale_embed w sale images st = (r, st') ->
  (exists n, st' = advance st [] n) /\
  (forall e, r = Ok e -> image e = head images).
Proof.
  unfold create_sale_embed, bind, lift, ret, utcnow. intros H.
  destruct (first10 (buyer sale)) as [short |];
    [| injection H as <- <-; split;
       [exists 0%nat; now rewrite advance_zero | discriminate]].
  destruct (format_price (total_price sale)) as [price |];
    [| injection H as <- <-; split;
       [exists 0%nat; now rewrite advance_zero | discriminate]].
  repeat (break_match; try discriminate; simplify_eq);
    (split; [exists 1%nat; now rewrite next_tick_advance |]);
    intros emb Hemb; try discriminate; injection Hemb as <-; reflexivity.
Qed.

Lemma mark_advance k st t n : mark k (advance st t n) = advance (mark k st) t n.
Proof. reflexivity. Qed.

(** A sale whose key is already in the seen-set is skipped: nothing
    happens at all. *)
Lemma process_sale_seen sale st k :
  sale_id w sale = Ok k -> k ∈ processed_sales st ->
  process_sale w sale st = (Ok tt, st).
Proof.
  intros Hkey Hin. unfold process_sale, bind, lift, is_processed, ret.
  rewrite Hkey. now rewrite bool_decide_eq_true_2.
Qed.

(** What processing a sale that is not in the seen-set does: after the
    look-ups, either the embed cannot be built, or the channel refuses
    it, or it is delivered and the key enters the seen-set.  In all three
    cases the loop body returns normally. *)
Lemma process_sale_run sale st k :
  sale_id w sale = Ok k -> k ∉ processed_sales st ->
  exists images t n,
    List.filter is_send t = [] /\
    (token_ids sale = None -> images = [] /\ List.filter is_lookup t = []) /\
    ((exists e,
        process_sale w sale st
        = (Ok tt, advance st (ELog Info (MsgFetching k) :: t
                              ++ [ELog Error (MsgSaleError k e)]) n)) \/
     (exists embed e,
        image embed = head images /\
        process_sale w sale st
        = (Ok tt, advance st (ELog Info (MsgFetching k) :: t
                              ++ [ESend k embed (Some e);
                                  ELog Error (MsgSaleError k e)]) n)) \/
     (exists embed,
        image embed = head images /\
        process_sale w sale st
        = (Ok tt, mark k (advance st (ELog Info (MsgFetching k) :: t
                                      ++ [ESend k embed None;
                                          ELog Info (MsgPosted k);
                                          ESleep 300]) n)))).
Proof.
  intros Hkey Hnew.
  remember (process_sale w sale st) as res eqn:Hres.
  unfold process_sale, bind at 1, lift in Hres. rewrite Hkey in Hres.
  unfold bind at 1, is_processed in Hres.
  rewrite bool_decide_eq_false_2 in Hres by exact Hnew.
  unfold try_except, bind at 1, log at 1, emit in Hres.
  rewrite push_advance in Hres.
  destruct (fetch_nft_images_effects (token_ids sale)
              (advance st [ELog Info (MsgFetching k)] 0))
    as (images & t & n & Hfetch & Hsend & Hnone).
  exists images, t. unfold bind at 1 in Hres.
  rewrite Hfetch, advance_advance in Hres. cbn [app Nat.add] in Hres.
  unfold bind at 1 in Hres.
  destruct (create_sale_embed w sale images
              (advance st (ELog Info (MsgFetching k) :: t) n))
    as [[embed | e] st3] eqn:Hembed;
    destruct (create_sale_embed_run _ _ _ _ _ Hembed) as [[m ->] Himage];
    rewrite advance_advance, app_nil_r in Hres.
  - specialize (Himage embed eq_refl).
    unfold bind at 1, send in Hres.
    destruct (channel_send w (tick (advance st (ELog Info (MsgFetching k) :: t) (n + m)))
                embed) as [e |] eqn:Hsent.
    + exists (n + m + 1)%nat. split; [exact Hsend |]. split; [exact Hnone |].
      right; left. exists embed, e. split; [exact Himage |].
      unfold log, emit in Hres. rewrite Hres. to_advance. same_state.
    + exists (n + m + 1)%nat. split; [exact Hsend |]. split; [exact Hnone |].
      right; right. exists embed. split; [exact Himage |].
      unfold bind, add_processed, log, sleep, emit in Hres. rewrite Hres.
      unfold mark, advance, push, next_tick; simpl. do 2 f_equal; [lia |].
      rewrite <- !app_assoc. reflexivity.
  - exists (n + m)%nat. split; [exact Hsend |]. split; [exact Hnone |].
    left. exists e. unfold log, emit in Hres. rewrite Hres. to_advance.
    same_state.
Qed.

Lemma delivered_app k a b :
  delivered k (a ++ b) = (delivered k a + delivered k b)%nat.
Proof. unfold delivered. now rewrite List.filter_app, length_app. Qed.

Lemma delivered_no_send k t : List.filter is_send t = [] -> delivered k t = 0%nat.
Proof.
  unfold delivered. induction t as [| e t IH]; [reflexivity |].
  simpl. destruct e; simpl; try discriminate; auto.
Qed.

Lemma dispatch_step_refl k st : dispatch_step k st st.
Proof. unfold dispatch_step. repeat split; auto; lia. Qed.

Lemma dispatch_step_trans k st1 st2 st3 :
  dispatch_step k st1 st2 -> dispatch_step k st2 st3 -> dispatch_step k st1 st3.
Proof.
  unfold dispatch_step. intros (S1 & M1 & B1 & N1) (S2 & M2 & B2 & N2).
  repeat split; try lia; [set_solver |].
  intros Hlt.
  destruct (Nat.lt_ge_cases (delivered k (trace st2)) (delivered k (trace st3)))
    as [Hnew | Hold]; [auto |].
  apply S2, N1. lia.
Qed.

(** Effects that are not deliveries, and ticks, change nothing for
    [dispatch_step]. *)
Lemma dispatch_step_advance k st t n :
  delivered k t = 0%nat -> dispatch_step k st (advance st t n).
Proof.
  intros Ht. unfold dispatch_step, pending. simpl. rewrite delivered_app, Ht.
  repeat split; auto; lia.
Qed.

Lemma delivered_attempt k key t tail :
  List.filter is_send t = [] ->
  delivered k (ELog Info (MsgFetching key) :: t ++ tail) = delivered k tail.
Proof.
  intros Hsend.
  change (ELog Info (MsgFetching key) :: t ++ tail)
    with ([ELog Info (MsgFetching key)] ++ t ++ tail).
  now rewrite !delivered_app, (delivered_no_send k t Hsend).
Qed.

Lemma delivered_sent k key embed :
  delivered k [ESend key embed None; ELog Info (MsgPosted key); ESleep 300]
  = if String.eqb key k then 1%nat else 0%nat.
Proof. unfold delivered. simpl. now destruct (String.eqb key k). Qed.

Lemma process_sale_dispatch k sale st :
  dispatch_step k st (snd (process_sale w sale st)).
Proof.
  destruct (sale_id w sale) as [key | e] eqn:Hkey.
  2: { unfold process_sale, bind, lift. rewrite Hkey. apply dispatch_step_refl. }
  destruct (decide (key ∈ processed_sales st)) as [Hin | Hnew].
  { rewrite (process_sale_seen sale st key Hkey Hin). apply dispatch_step_refl. }
  destruct (process_sale_run sale st key Hkey Hnew)
    as (images & t & n & Hsend & _ & [[e ->] | [(embed & e & _ & ->) | (embed & _ & ->)]]).
  - apply dispatch_step_advance. now rewrite delivered_attempt.
  - apply dispatch_step_advance. now rewrite delivered_attempt.
  - cbn [snd]. unfold dispatch_step, pending.
    cbn [mark advance trace processed_sales].
    rewrite delivered_app, delivered_attempt, delivered_sent by exact Hsend.
    destruct (String.eqb_spec key k) as [-> | Hne].
    + rewrite bool_decide_eq_true_2 by set_solver.
      rewrite (bool_decide_eq_false_2 (k ∈ processed_sales st)) by exact Hnew.
      repeat split; try lia; set_solver.
    + split; [set_solver |]. split; [lia |]. split; [| lia].
      destruct (decide (k ∈ processed_sales st)) as [Hk | Hk].
      * rewrite !bool_decide_eq_true_2 by set_solver. lia.
      * rewrite !bool_decide_eq_false_2 by set_solver. lia.
Qed.

Lemma process_sales_dispatch k sales : forall st,
  dispatch_step k st (snd (process_sales w sales st)).
Proof.
  induction sales as [| sale sales IH]; intros st.
  - apply dispatch_step_refl.
  - unfold process_sales. cbn [foldM]. unfold bind.
    pose proof (process_sale_dispatch k sale st) as Hstep.
    destruct (process_sale w sale st) as [[[] | e] st1]; cbn [snd] in *.
    + eapply dispatch_step_trans; [exact Hstep | apply IH].
    + exact Hstep.
Qed.

End Dispatching.

(** C3.  (1) Over two polling cycles, whatever the sales of each cycle
    and whatever the world answers, at most one notification is
    dispatched for a given dedup key, and none when the key was in the
    seen-set to begin with.  (2) Once a notification for a key has been
    dispatched the key is in the seen-set.  (3) A sale whose key is in the
    seen-set is skipped: nothing is looked up, sent or logged. *)
Theorem dispatch_idempotent :
  (forall w st sales1 sales2 k,
     (delivered k (trace (snd (process_sales w sales2
                                 (snd (process_sales w sales1 st)))))
      <= delivered k (trace st) + 1)%nat /\
     (k ∈ processed_sales st ->
      delivered k (trace (snd (process_sales w sales2
                                 (snd (process_sales w sales1 st)))))
      = delivered k (trace st))) /\
  (forall w st sale k,
     (delivered k (trace st)
      < delivered k (trace (snd (process_sale w sale st))))%nat ->
     k ∈ processed_sales (snd (process_sale w sale st))) /\
  (forall w st sale k,
     sale_id w sale = Ok k -> k ∈ processed_sales st ->
     process_sale w sale st = (Ok tt, st)).
Proof.
  split; [| split].
  - intros w st sales1 sales2 k.
    pose proof (dispatch_step_trans k _ _ _
                  (process_sales_dispatch w k sales1 st)
                  (process_sales_dispatch w k sales2
                     (snd (process_sales w sales1 st))))
      as (_ & Hmono & Hbudget & _).
    split.
    + assert (pending k st <= 1)%nat
        by (unfold pending; case_bool_decide; lia).
      lia.
    + intros Hin.
      assert (pending k st = 0)%nat
        by (unfold pending; now rewrite bool_decide_eq_true_2).
      lia.
  - intros w st sale k Hlt.
    now apply (process_sale_dispatch w k sale st).
  - intros w st sale k. apply process_sale_seen.
Qed.

Lemma dispatch_idempotent_witness :
  process_sale Samples.calm Samples.single_sale (mark "0xabc_7" Samples.fresh)
  = (Ok tt, mark "0xabc_7" Samples.fresh).
Proof.
  apply (proj2 (proj2 dispatch_idempotent) Samples.calm
           (mark "0xabc_7" Samples.fresh) Samples.single_sale "0xabc_7").
  - vm_compute. reflexivity.
  - simpl. apply elem_of_union_l, elem_of_singleton. reflexivity.
Defined.

Section Isolation.
Variable w : World.








Lemma no_send_in t key embed o :
  List.filter is_send t = [] -> ~ In (ESend key embed o) t.
Proof.
  intros Hnone Hin.
  assert (Hf : In (ESend key embed o) (List.filter is_send t))
    by (apply filter_In; auto).
  rewrite Hnone in Hf. destruct Hf.
Qed.

End Isolation.



(** The first message of the run is refused, the second sale is
    dispatched all the same. *)
Example refused_then_dispatched :
  delivered "0xabc_7"
    (trace (snd (process_sales Samples.flaky
                   [Samples.single_sale; Samples.sweep_sale] Samples.fresh))) = 0%nat /\
  delivered "0xdef_8"
    (trace (snd (process_sales Samples.flaky
                   [Samples.single_sale; Samples.sweep_sale] Samples.fresh))) = 1%nat.
Proof. vm_compute. split; reflexivity. Qed.

(** C10.  (1) A parsed sale with [token_count = 1] has [token_ids = None]
    and its id in [token_id].  (2) Given [None] the enricher catches the
    error of the slice, logs it, looks nothing up and returns no image.
    (3) So processing a sale whose [token_ids] is [None] issues no
    look-up, and any message sent for it has no image, whatever media the
    marketplace would have returned. *)
Theorem single_sale_without_image :
  (forall w data st sales st' s,
     _parse_sales_response w data st = (Ok sales, st') ->
     In s sales -> token_count s = 1 ->
     token_ids s = None /\ exists t, token_id s = Some t) /\
  (forall w st,
     fetch_nft_images w None st
     = (Ok [], advance st [ELog Error (MsgImagesError TypeError)] 0)) /\
  (forall w st sale,
     token_ids sale = None ->
     exists t,
       trace (snd (process_sale w sale st)) = trace st ++ t /\
       List.filter is_lookup t = [] /\
       forall key embed outcome,
         In (ESend key embed outcome) t -> image embed = None).
Proof.
  split; [| split].
  - intros w data st sales st' s Hparse Hs Hone.
    destruct (parse_emitted w data st sales st' Hparse s Hs)
      as (k & events & now & Hne & ->).
    destruct (sale_of_fields w k events now Hne) as (_ & _ & _ & Hsingle & _).
    now apply Hsingle.
  - intros w st.
    unfold fetch_nft_images, try_except, raise, bind, log, emit, ret.
    now rewrite push_advance.
  - intros w st sale Hnone.
    destruct (sale_id w sale) as [k | e] eqn:Hkey.
    2: { exists []. unfold process_sale, bind, lift. rewrite Hkey. cbn [snd].
         split; [now rewrite app_nil_r |]. split; [reflexivity | intros ? ? ? []]. }
    destruct (decide (k ∈ processed_sales st)) as [Hin | Hnew].
    { exists []. rewrite (process_sale_seen w sale st k Hkey Hin). cbn [snd].
      split; [now rewrite app_nil_r |]. split; [reflexivity | intros ? ? ? []]. }
    destruct (process_sale_run w sale st k Hkey Hnew)
      as (images & t & n & Hsend & Hquiet
          & [[e ->] | [(embed & e & Himg & ->) | (embed & Himg & ->)]]);
      destruct (Hquiet Hnone) as [-> Hlook]; cbn [snd mark advance trace];
      eexists; (split; [reflexivity |]);
      (split; [simpl; rewrite List.filter_app, Hlook; reflexivity |]);
      intros key emb o [Hin | Hin]; try discriminate;
      apply in_app_or in Hin; destruct Hin as [Hin | Hin];
      try (now apply no_send_in in Hin);
      simpl in Hin; repeat (destruct Hin as [Hin | Hin]; try discriminate);
      try (now destruct Hin); injection Hin as <- <- <-; exact Himg.
Qed.

Lemma single_sale_without_image_witness :
  token_ids Samples.single_sale = None /\
  exists t, token_id Samples.single_sale = Some t.
Proof.
  apply (proj1 single_sale_without_image Samples.calm Samples.single_response
           Samples.fresh [Samples.single_sale] (advance Samples.fresh [] 1));
    [vm_compute; reflexivity | left; reflexivity | reflexivity].
Defined.

(** *** The marketplace client *)

Section Client.
Variable w : World.

Lemma watermarks_app a b : watermarks (a ++ b) = watermarks a ++ watermarks b.
Proof. unfold watermarks. apply flat_map_app. Qed.

(** What a call does, by the answer to the events query. *)
Lemma fetch_recent_sales_run st :
  fetch_recent_sales w st
  = match http_events w (tick st) (last_fetch_time st) with
    | Failed e =>
        (Ok [], advance (queried_state st) [ELog Error (MsgFetchError e)] 0)
    | Response status body text =>
        if status =? 200 then
          match body with
          | Raise e =>
              (Ok [], advance (queried_state st) [ELog Error (MsgFetchError e)] 0)
          | Ok data =>
              match _parse_sales_response w data (queried_state st) with
              | (Ok sales, st2) =>
                  (Ok sales,
                   snd (set_last_fetch_time (clock w (tick st2)) (next_tick st2)))
              | (Raise e, st2) =>
                  (Ok [], advance st2 [ELog Error (MsgFetchError e)] 0)
              end
          end
        else if status =? 429 then
          (Ok [], advance (queried_state st) [ELog Warning MsgRateLimited] 0)
        else
          match text with
          | Ok _ =>
              (Ok [], advance (queried_state st) [ELog Error (MsgApiError status)] 0)
          | Raise e =>
              (Ok [], advance (queried_state st) [ELog Error (MsgFetchError e)] 0)
          end
    end.
Proof.
  unfold fetch_recent_sales, try_except, bind at 1, get_last_fetch_time.
  unfold bind at 1, get_events, queried_state. rewrite push_advance, next_tick_advance,
    advance_advance. cbn [app Nat.add].
  destruct (http_events w (tick st) (last_fetch_time st)) as [e | status body text].
  - unfold bind, log, emit, ret. now rewrite push_advance.
  - destruct (status =? 200).
    + unfold bind at 1, lift. destruct body as [data | e].
      * unfold bind at 1.
        destruct (_parse_sales_response w data
                    (advance st [EGetEvents (last_fetch_time st)] 1))
          as [[sales | e] st2].
        -- unfold bind, utcnow, set_last_fetch_time, ret. reflexivity.
        -- unfold bind, log, emit, ret. now rewrite push_advance.
      * unfold bind, log, emit, ret. now rewrite push_advance.
    + destruct (status =? 429).
      * unfold bind, log, emit, ret. now rewrite push_advance.
      * unfold bind at 1, lift. destruct text as [txt | e];
          unfold bind, log, emit, ret; now rewrite push_advance.
Qed.

Lemma soft_failure_logged st st1 m l n :
  last_fetch_time st1 = last_fetch_time st ->
  watermarks (trace st1) = watermarks (trace st) ->
  soft_failure st (Ok [], advance st1 [ELog l m] n).
Proof.
  intros Hw Ht. unfold soft_failure. cbn [fst snd advance trace last_fetch_time].
  rewrite watermarks_app, Ht. cbn. rewrite ?app_nil_r. auto.
Qed.

Lemma queried_state_watermark st :
  last_fetch_time (queried_state st) = last_fetch_time st /\
  watermarks (trace (queried_state st)) = watermarks (trace st).
Proof.
  unfold queried_state. cbn [advance trace last_fetch_time].
  rewrite watermarks_app. cbn. rewrite ?app_nil_r. auto.
Qed.

End Client.

(** C2.  (1) [fetch_recent_sales] never raises.  (2) On a transport
    error, (3) on any status other than 200 (429 and every non-2xx
    status among them) and (4) when the body cannot be decoded or parsed,
    it returns the empty sequence and the watermark is neither changed nor
    assigned.  (5) When a 200 response is decoded and parsed, it returns
    the parsed sales and assigns the watermark exactly once, after the
    parse, to the clock read at that moment. *)
Theorem fetch_recent_sales_soft :
  (forall w st, exists sales, fst (fetch_recent_sales w st) = Ok sales) /\
  (forall w st e,
     http_events w (tick st) (last_fetch_time st) = Failed e ->
     soft_failure st (fetch_recent_sales w st)) /\
  (forall w st status body text,
     http_events w (tick st) (last_fetch_time st) = Response status body text ->
     status <> 200 ->
     soft_failure st (fetch_recent_sales w st)) /\
  (forall w st body text,
     http_events w (tick st) (last_fetch_time st) = Response 200 body text ->
     (forall data, body = Ok data ->
        exists e, fst (_parse_sales_response w data (queried_state st)) = Raise e) ->
     soft_failure st (fetch_recent_sales w st)) /\
  (forall w st data text sales st2,
     http_events w (tick st) (last_fetch_time st) = Response 200 (Ok data) text ->
     _parse_sales_response w data (queried_state st) = (Ok sales, st2) ->
     let out := fetch_recent_sales w st in
     fst out = Ok sales /\
     last_fetch_time (snd out) = clock w (tick st2) /\
     trace (snd out)
     = trace st ++ [EGetEvents (last_fetch_time st); EWatermark (clock w (tick st2))] /\
     watermarks (trace (snd out))
     = watermarks (trace st) ++ [clock w (tick st2)]).
Proof.
  split; [| split; [| split; [| split]]].
  - intros w st. rewrite fetch_recent_sales_run.
    repeat break_match; eexists; reflexivity.
  - intros w st e Hhttp. rewrite fetch_recent_sales_run, Hhttp.
    apply soft_failure_logged; apply queried_state_watermark.
  - intros w st status body text Hhttp Hstatus.
    rewrite fetch_recent_sales_run, Hhttp.
    destruct (Z.eqb_spec status 200) as [| _]; [contradiction |].
    destruct (status =? 429); [| destruct text];
      apply soft_failure_logged; apply queried_state_watermark.
  - intros w st body text Hhttp Hfail.
    rewrite fetch_recent_sales_run, Hhttp. cbn [Z.eqb Pos.eqb].
    destruct body as [data | e];
      [| apply soft_failure_logged; apply queried_state_watermark].
    destruct (Hfail data eq_refl) as [e He].
    destruct (_parse_sales_response w data (queried_state st))
      as [[sales | e'] st2] eqn:Hparse; [discriminate |].
    destruct (parse_state w data _ _ _ Hparse) as [n ->].
    apply soft_failure_logged; cbn [advance trace last_fetch_time];
      rewrite ?app_nil_r; apply queried_state_watermark.
  - intros w st data text sales st2 Hhttp Hparse out. subst out.
    rewrite fetch_recent_sales_run, Hhttp. cbn [Z.eqb Pos.eqb]. rewrite Hparse.
    destruct (parse_state w data _ _ _ Hparse) as [n ->].
    unfold set_last_fetch_time, queried_state.
    cbn [fst snd push next_tick advance trace last_fetch_time tick].
    rewrite !app_nil_r, <- !app_assoc. cbn [app].
    repeat split.
    rewrite watermarks_app. cbn. rewrite ?app_nil_r. reflexivity.
Qed.

Lemma fetch_recent_sales_soft_witness :
  fst (fetch_recent_sales Samples.market Samples.fresh) = Ok [Samples.listed_sale] /\
  last_fetch_time (snd (fetch_recent_sales Samples.market Samples.fresh)) = 2 /\
  trace (snd (fetch_recent_sales Samples.market Samples.fresh))
  = trace Samples.fresh ++ [EGetEvents 0; EWatermark 2] /\
  watermarks (trace (snd (fetch_recent_sales Samples.market Samples.fresh)))
  = watermarks (trace Samples.fresh) ++ [2].
Proof.
  apply (proj2 (proj2 (proj2 (proj2 fetch_recent_sales_soft)))
           Samples.market Samples.fresh Samples.single_response (Ok EmptyString)
           [Samples.listed_sale] (advance Samples.fresh [EGetEvents 0] 2));
    vm_compute; reflexivity.
Defined.

(* ===================================================================== *)
(** ** Further properties of the aggregator                               *)
(* ===================================================================== *)

Section AggregatorFacts.
Variable w : World.

Lemma sale_of_group_none k events st st' :
  sale_of_group w (k, events) st = (Ok None, st') -> tokens w events = [].
Proof.
  unfold sale_of_group. destruct events as [| first rest]; [reflexivity |].
  unfold bind, lift, ret, utcnow. intros H.
  destruct (get first "winner_account" (JDict [])) as [winner |]; [| discriminate].
  destruct (get winner "address" (JStr "Unknown")) as [b |]; [| discriminate].
  destruct (get first "seller" (JDict [])) as [account |]; [| discriminate].
  destruct (get account "address" (JStr "Unknown")) as [a |]; [| discriminate].
  destruct (rfold (leg_step w) (first :: rest) ([], 0)) as [[ids total] |] eqn:Hlegs;
    [| discriminate].
  apply legs_inv in Hlegs. rewrite app_nil_l in Hlegs. injection Hlegs as -> _.
  change (leg_tokens w first ++ tokens w rest) with (tokens w (first :: rest)) in H.
  destruct (tokens w (first :: rest)); [reflexivity | discriminate].
Qed.

(** Whenever the second loop returns, its sales are those of the groups
    that collected a token id, in the order of the groups. *)
Lemma sales_loop_summary G : forall acc st sales st',
  foldM (sales_step w) G acc st = (Ok sales, st') ->
  exists emitted,
    sales = acc ++ emitted /\
    map summary emitted = flat_map (group_summary w) G.
Proof.
  induction G as [| [k F] G IH]; intros acc st sales st' H.
  - simpl in H. injection H as <- <-. exists []. now rewrite app_nil_r.
  - cbn [foldM] in H. unfold bind at 1 in H. unfold sales_step at 1 in H.
    unfold bind at 1 in H.
    destruct (sale_of_group w (k, F) st) as [[[s0 |] | e] st1] eqn:Hg;
      [| | discriminate]; unfold ret at 1 in H.
    + apply sale_of_group_inv in Hg. destruct Hg as (Hne & -> & ->).
      apply IH in H. destruct H as (emitted & -> & Hsum).
      exists (sale_of w k F (clock w (tick st)) :: emitted).
      split; [now rewrite <- app_assoc |].
      change (flat_map (group_summary w) ((k, F) :: G))
        with (group_summary w (k, F) ++ flat_map (group_summary w) G).
      rewrite <- Hsum. unfold group_summary. cbn [fst snd].
      destruct (tokens w F) as [| t ts] eqn:Htok; [congruence |].
      cbn [map app]. f_equal. unfold summary, sale_of. cbn. now rewrite Htok.
    + apply sale_of_group_none in Hg.
      apply IH in H. destruct H as (emitted & -> & Hsum).
      exists emitted. split; [reflexivity |].
      change (flat_map (group_summary w) ((k, F) :: G))
        with (group_summary w (k, F) ++ flat_map (group_summary w) G).
      rewrite <- Hsum. unfold group_summary. cbn [fst snd]. now rewrite Hg.
Qed.

Lemma group_step_inv g e g' :
  group_step g e = Ok g' -> g' = g \/ exists k, g' = group_add g k e.
Proof.
  unfold group_step, rbind. intros H.
  destruct (get e "transaction" (JDict [])) as [tx |]; [| discriminate].
  destruct (get tx "transaction_hash" JNull) as [h |]; [| discriminate].
  destruct (negb (truthy h)); [injection H as <-; auto |].
  destruct (negb (hashable h)); [discriminate |].
  injection H as <-. eauto.
Qed.

(** Filing an event: either under a key that is already there, or under
    a new key that none of the keys before it equals. *)
Lemma group_add_keys g k e :
  (map fst (group_add g k e) = map fst g \/
   (map fst (group_add g k e) = map fst g ++ [k] /\
    Forall (fun k' => key_eq k' k = false) (map fst g))) /\
  filed (group_add g k e) = S (filed g).
Proof.
  induction g as [| [k' F] g IH]; simpl.
  - split; [right; split; [reflexivity | constructor] | reflexivity].
  - destruct (key_eq k' k) eqn:Hk; simpl.
    + split; [left; reflexivity |]. unfold filed. simpl.
      rewrite length_app. simpl. lia.
    + destruct IH as [[Hsame | [Hnew Hall]] Hfiled].
      * split; [left; now rewrite Hsame |]. unfold filed in *. simpl.
        rewrite Hfiled. lia.
      * split; [right; split; [now rewrite Hnew | now constructor] |].
        unfold filed in *. simpl. rewrite Hfiled. lia.
Qed.

Lemma ordpairs_snoc {A} (R : A -> A -> Prop) l x :
  ForallOrdPairs R l -> Forall (fun a => R a x) l -> ForallOrdPairs R (l ++ [x]).
Proof.
  induction 1 as [| a l Ha Hl IH]; intros Hx; simpl.
  - repeat constructor.
  - inversion Hx as [| ? ? Hax Hlx]; subst. constructor.
    + apply Forall_app. split; [exact Ha | now repeat constructor].
    + now apply IH.
Qed.

(** The keys of the groups are pairwise different, and the groups never
    hold more events than were read. *)
Lemma grouping_invariant evs : forall g G,
  rfold group_step evs g = Ok G ->
  ForallOrdPairs (fun a b => key_eq a b = false) (map fst g) ->
  ForallOrdPairs (fun a b => key_eq a b = false) (map fst G) /\
  (filed G <= filed g + length evs)%nat.
Proof.
  induction evs as [| e evs IH]; intros g G H Hg.
  - simpl in H. injection H as <-. split; [exact Hg | simpl; lia].
  - cbn [rfold] in H. unfold rbind in H.
    destruct (group_step g e) as [g1 |] eqn:Hstep; [| discriminate].
    apply group_step_inv in Hstep. destruct Hstep as [-> | [k ->]].
    + destruct (IH _ _ H Hg) as [HG Hn]. split; [exact HG | simpl; lia].
    + destruct (group_add_keys g k e) as [Hkeys Hfiled].
      assert (Hg1 : ForallOrdPairs (fun a b => key_eq a b = false)
                      (map fst (group_add g k e))).
      { destruct Hkeys as [-> | [-> Hall]]; [exact Hg | now apply ordpairs_snoc]. }
      destruct (IH _ _ H Hg1) as [HG Hn]. split; [exact HG |].
      rewrite Hfiled in Hn. simpl. lia.
Qed.



Lemma zsum_app (a b : list Z) :
  fold_right Z.add 0 (a ++ b) = fold_right Z.add 0 a + fold_right Z.add 0 b.
Proof. induction a as [| x a IH]; simpl; [reflexivity | rewrite IH; lia]. Qed.

Lemma group_summary_cases g :
  group_summary w g = [] \/
  exists c, group_summary w g = [(fst g, c)]
            /\ 1 <= c <= Z.of_nat (length (snd g)).
Proof.
  unfold group_summary. pose proof (tokens_length w (snd g)) as Hlen.
  destruct (tokens w (snd g)) as [| t ts]; [now left |].
  right. eexists. split; [reflexivity |]. unfold len. simpl length in *. lia.
Qed.

Lemma summary_counts G :
  (fold_right Z.add 0 (map snd (flat_map (group_summary w) G)) <= Z.of_nat (filed G)) /\
  Forall (fun c => 1 <= c) (map snd (flat_map (group_summary w) G)).
Proof.
  induction G as [| g G [IH1 IH2]]; [split; [simpl; lia | constructor] |].
  change (flat_map (group_summary w) (g :: G))
    with (group_summary w g ++ flat_map (group_summary w) G).
  change (filed (g :: G)) with (length (snd g) + filed G)%nat.
  rewrite map_app, zsum_app.
  destruct (group_summary_cases g) as [-> | (c & -> & Hc)].
  - split; [simpl; lia | exact IH2].
  - split; [simpl; lia | constructor; [simpl; lia | exact IH2]].
Qed.

Lemma counts_bound (l : list Z) :
  Forall (fun c => 1 <= c) l -> Z.of_nat (length l) <= fold_right Z.add 0 l.
Proof.
  induction 1 as [| c l Hc Hl IH]; simpl length; simpl fold_right; lia.
Qed.

End AggregatorFacts.

Section ParserFacts.
Variable w : World.





Lemma bad_transaction_raises g e :
  bad_transaction e = true -> group_step g e = Raise AttributeError.
Proof.
  unfold bad_transaction, group_step, rbind, get.
  destruct e as [| | | | | | d]; try reflexivity.
  destruct (assoc d "transaction") as [[] |]; try discriminate; reflexivity.
Qed.

Lemma rfold_ok_prefix evs1 : forall g,
  forallb event_ok evs1 = true -> exists g1, rfold group_step evs1 g = Ok g1.
Proof.
  induction evs1 as [| e evs1 IH]; intros g Hok; [now exists g |].
  simpl in Hok. apply andb_prop in Hok; destruct Hok as [He Hok].
  cbn [rfold]. rewrite (group_step_ok _ e He). cbn [rbind]. now apply IH.
Qed.

End ParserFacts.



(** A parsed response never has more sales than token ids, nor more
    token ids than raw events. *)
Theorem parse_counts_bounded (w : World) (st st' : state)
    (d : list (string * json)) (evs : list json) (sales : list SaleEvent) :
  assoc d "asset_events" = Some (JList evs) ->
  _parse_sales_response w (JDict d) st = (Ok sales, st') ->
  len sales <= sum_counts sales <= len evs.
Proof.
  intros Hd Hparse. rewrite (parse_response w d evs st Hd) in Hparse.
  destruct (rfold group_step evs []) as [G |] eqn:HG; [| discriminate].
  apply grouping_invariant in HG; [| constructor]. destruct HG as [_ Hfiled].
  apply sales_loop_summary in Hparse. destruct Hparse as (emitted & -> & Hsum).
  simpl app. unfold sum_counts.
  replace (map token_count emitted) with (map snd (map summary emitted))
    by (rewrite map_map; reflexivity).
  rewrite Hsum. destruct (summary_counts w G) as [Hle Hpos].
  pose proof (counts_bound _ Hpos) as Hn.
  rewrite <- Hsum, !length_map in Hn. rewrite <- Hsum in Hle.
  unfold len. simpl in Hfiled. rewrite <- Hsum. lia.
Qed.

Lemma parse_counts_bounded_witness :
  len [Samples.single_sale] <= sum_counts [Samples.single_sale]
  <= len [Samples.leg "0xabc" "7" "ETH" (JStr "1000")].
Proof.
  apply (parse_counts_bounded Samples.calm Samples.fresh (advance Samples.fresh [] 1)
           [("asset_events", JList [Samples.leg "0xabc" "7" "ETH" (JStr "1000")])]);
    vm_compute; reflexivity.
Defined.

(** A response without the [asset_events] key, or with an empty list
    under it, parses to no sale and reads no clock; a null under the key,
    or a response that is no container at all, makes the parser raise
    [TypeError]. *)
Theorem parse_without_events :
  (forall w st d,
     assoc d "asset_events" = None ->
     _parse_sales_response w (JDict d) st = (Ok [], st)) /\
  (forall w st d,
     assoc d "asset_events" = Some (JList []) ->
     _parse_sales_response w (JDict d) st = (Ok [], st)) /\
  (forall w st d,
     assoc d "asset_events" = Some JNull ->
     _parse_sales_response w (JDict d) st = (Raise TypeError, st)) /\
  (forall w st, _parse_sales_response w JNull st = (Raise TypeError, st)).
Proof.
  repeat split; intros;
    unfold _parse_sales_response, bind, lift, ret, contains, get, iterate;
    rewrite ?H; reflexivity.
Qed.

Lemma parse_without_events_witness :
  _parse_sales_response Samples.calm (JDict [("detail", JStr "throttled")]) Samples.fresh
  = (Ok [], Samples.fresh).
Proof.
  apply (proj1 parse_without_events Samples.calm Samples.fresh
           [("detail", JStr "throttled")]).
  reflexivity.
Defined.

(** One raw event that is not an object, or whose [transaction] is
    null, makes the whole parse raise: no sale of the response is emitted,
    and [fetch_recent_sales] then returns nothing and leaves the watermark
    where it was, so the same window is asked for again. *)
Theorem parse_null_transaction (w : World) (d : list (string * json))
    (evs1 evs2 : list json) (e : json) :
  assoc d "asset_events" = Some (JList (evs1 ++ e :: evs2)) ->
  forallb event_ok evs1 = true ->
  bad_transaction e = true ->
  (forall st, _parse_sales_response w (JDict d) st = (Raise AttributeError, st)) /\
  (forall st text,
     http_events w (tick st) (last_fetch_time st) = Response 200 (Ok (JDict d)) text ->
     soft_failure st (fetch_recent_sales w st)).
Proof.
  intros Hd Hok Hbad.
  assert (Hparse : forall st,
            _parse_sales_response w (JDict d) st = (Raise AttributeError, st)).
  { intros st. rewrite (parse_response w d _ st Hd), rfold_app.
    destruct (rfold_ok_prefix evs1 [] Hok) as [g1 ->].
    cbn [rbind rfold]. now rewrite (bad_transaction_raises g1 e Hbad). }
  split; [exact Hparse |].
  intros st text Hhttp. rewrite fetch_recent_sales_run, Hhttp. cbn [Z.eqb Pos.eqb].
  rewrite Hparse. apply soft_failure_logged; apply queried_state_watermark.
Qed.

Lemma parse_null_transaction_witness :
  (forall st, _parse_sales_response Samples.poisoned (JDict Samples.poisoned_response) st
              = (Raise AttributeError, st)) /\
  (forall st text,
     http_events Samples.poisoned (tick st) (last_fetch_time st)
     = Response 200 (Ok (JDict Samples.poisoned_response)) text ->
     soft_failure st (fetch_recent_sales Samples.poisoned st)).
Proof.
  apply (parse_null_transaction Samples.poisoned Samples.poisoned_response
           [Samples.leg "0xabc" "7" "ETH" (JStr "1000")] [] Samples.null_tx);
    vm_compute; reflexivity.
Defined.



(** The three events of the sample transaction give one sale of three
    tokens worth 300 wei, a mini sweep. *)
Example one_tx_is_mini_sweep :
  tokens Samples.calm Samples.one_tx_events = ["11"; "12"; "13"] /\
  total_value Samples.one_tx_events = 300 /\
  get_sweep_category (len (tokens Samples.calm Samples.one_tx_events)) = "mini".
Proof. vm_compute. repeat split. Qed.

Section Overflow.
Variable w : World.

Lemma leg_step_overflow acc e r :
  leg_step w acc e = Ok r ->
  native_leg e = true -> leg_price e = Raise OverflowError -> False.
Proof.
  destruct acc as [ids total].
  unfold leg_step, native_leg, leg_price, rbind. intros H Hn Hp.
  destruct (get e "asset" JNull) as [asset |]; [| discriminate].
  destruct (if truthy asset
            then match get asset "token_id" JNull with
                 | Ok a => Ok (if truthy a
                               then ids ++ [py_str (py_repr w) a] else ids)
                 | Raise x => Raise x
                 end
            else Ok ids) as [ids' |]; [| discriminate].
  destruct (get e "payment_token" (JDict [])) as [pt |]; [| discriminate].
  destruct (is_native pt) as [[] |]; try discriminate.
  destruct (get e "total_price" (JStr "0")) as [p |]; [| discriminate].
  rewrite Hp in H. discriminate.
Qed.

Lemma legs_overflow events : forall acc r e,
  rfold (leg_step w) events acc = Ok r ->
  In e events -> native_leg e = true -> leg_price e = Raise OverflowError -> False.
Proof.
  induction events as [| x events IH]; intros acc r e H Hin Hn Hp; [destruct Hin |].
  cbn [rfold] in H. unfold rbind in H.
  destruct (leg_step w acc x) as [acc1 |] eqn:Hstep; [| discriminate].
  destruct Hin as [-> | Hin].
  - eapply leg_step_overflow; eassumption.
  - eapply IH; eassumption.
Qed.

End Overflow.

(** A price that is a float beyond the float range is not passed over
    like a malformed one: [int] raises [OverflowError], which the loop over
    the legs does not catch, and the transaction gives no sale but an
    exception. *)
Theorem infinite_price_raises (w : World) (k : json) (events : list json)
    (e : json) (st : state) :
  In e events -> native_leg e = true ->
  (exists sign, get e "total_price" (JStr "0") = Ok (JFloat (S754_infinity sign))) ->
  exists x, sale_of_group w (k, events) st = (Raise x, st).
Proof.
  intros Hin Hn [sign Hprice].
  assert (Hp : leg_price e = Raise OverflowError)
    by (unfold leg_price; now rewrite Hprice).
  destruct (sale_of_group w (k, events) st) as [[o | x] st'] eqn:Hrun.
  - exfalso. unfold sale_of_group, bind, lift, ret, utcnow in Hrun.
    destruct events as [| first rest]; [destruct Hin |].
    destruct (get first "winner_account" (JDict [])) as [a |]; [| discriminate].
    destruct (get a "address" (JStr "Unknown")) as [b |]; [| discriminate].
    destruct (get first "seller" (JDict [])) as [c |]; [| discriminate].
    destruct (get c "address" (JStr "Unknown")) as [c' |]; [| discriminate].
    destruct (rfold (leg_step w) (first :: rest) ([], 0)) as [r |] eqn:Hlegs;
      [| discriminate].
    eapply legs_overflow; eassumption.
  - pose proof (sale_of_group_quiet w _ _ _ _ Hrun) as Hq. simpl in Hq.
    subst st'. now exists x.
Qed.

Lemma infinite_price_raises_witness :
  exists x,
    sale_of_group Samples.calm (JStr "0xabc", [Samples.infinite_leg]) Samples.fresh
    = (Raise x, Samples.fresh).
Proof.
  apply (infinite_price_raises Samples.calm (JStr "0xabc") [Samples.infinite_leg]
           Samples.infinite_leg Samples.fresh).
  - left. reflexivity.
  - vm_compute. reflexivity.
  - exists false. vm_compute. reflexivity.
Defined.

(* ===================================================================== *)
(** ** Further properties of the image enricher                           *)
(* ===================================================================== *)

Section EnricherFacts.
Variable w : World.

Lemma keep_images values : forall images,
  fold_left keep_image values images = images ++ kept values.
Proof.
  induction values as [| r values IH]; intros images; simpl.
  - now rewrite app_nil_r.
  - rewrite IH. unfold kept at 2. cbn [flat_map]. fold (kept values).
    destruct r as [| | | | s | |]; simpl; try reflexivity.
    destruct (String.eqb s ""); simpl; [reflexivity | now rewrite <- app_assoc].
Qed.

Lemma batch_step_images ids images i st :
  batch_step w ids images i st
  = (Ok (images ++ kept (map (lookup w (tick st)) (slice ids i (i + batch_size)))),
     advance st (batch_effects ids i) 1).
Proof.
  unfold batch_step, bind, gather_images, sleep, emit, ret, batch_effects.
  rewrite keep_images.
  destruct (i + batch_size <? length ids)%nat; to_advance; reflexivity.
Qed.

Lemma batch_loop_images ids idxs : forall images st,
  fst (foldM (batch_step w ids) idxs images st)
  = Ok (images ++ batch_images w (tick st)
                    (map (fun i => slice ids i (i + batch_size)) idxs)).
Proof.
  induction idxs as [| i idxs IH]; intros images st.
  - simpl. now rewrite app_nil_r.
  - cbn [foldM map batch_images]. unfold bind.
    rewrite batch_step_images, IH. cbn [advance tick].
    rewrite <- app_assoc.
    replace (tick st + 1)%nat with (S (tick st)) by lia. reflexivity.
Qed.

(** The URLs the enricher returns for a list of ids. *)
Lemma fetch_nft_images_value ids st :
  fst (fetch_nft_images w (Some ids) st)
  = Ok (batch_images w (tick st) (batches ids)).
Proof.
  unfold fetch_nft_images, try_except, batches.
  pose proof (batch_loop_images (take 20 ids)
                (range (length (take 20 ids)) batch_size) [] st) as Hloop.
  destruct (foldM _ _ _ _) as [[images | e] st']; simpl in *; congruence.
Qed.

Lemma kept_length values : (length (kept values) <= length values)%nat.
Proof.
  induction values as [| r values IH]; simpl; [lia |].
  rewrite length_app.
  destruct r as [| | | | s | |]; simpl; try lia.
  destruct (String.eqb s ""); simpl; lia.
Qed.

Lemma kept_nonempty values : Forall (fun u => u <> "") (kept values).
Proof.
  induction values as [| r values IH]; simpl; [constructor |].
  apply Forall_app. split; [| exact IH].
  destruct r as [| | | | s | |]; try constructor.
  destruct (String.eqb_spec s ""); constructor; [assumption | constructor].
Qed.

Lemma kept_app a b : kept (a ++ b) = kept a ++ kept b.
Proof. unfold kept. apply flat_map_app. Qed.

Lemma batch_images_bound bs : forall n,
  (length (batch_images w n bs) <= length (concat bs))%nat /\
  Forall (fun u => u <> "") (batch_images w n bs).
Proof.
  induction bs as [| b bs IH]; intros n; simpl; [split; [lia | constructor] |].
  destruct (IH (S n)) as [Hlen Hne]. rewrite !length_app. split.
  - pose proof (kept_length (map (lookup w n) b)) as Hk.
    rewrite length_map in Hk. lia.
  - apply Forall_app. split; [apply kept_nonempty | exact Hne].
Qed.

Lemma batch_images_stable bs : forall n,
  (forall a b t, http_asset w a t = http_asset w b t) ->
  batch_images w n bs = kept (map (lookup w 0) (concat bs)).
Proof.
  induction bs as [| b bs IH]; intros n Hstable; [reflexivity |].
  simpl. rewrite map_app, kept_app, (IH (S n) Hstable). f_equal.
  f_equal. apply map_ext. intros t. unfold lookup. now rewrite (Hstable n 0%nat).
Qed.

End EnricherFacts.

(** Whatever it is given and whatever the marketplace answers, the
    enricher returns normally, with at most 20 URLs and never more than
    there are ids, none of them empty; it leaves the seen-set and the
    watermark alone and sends nothing. *)
Theorem fetch_nft_images_bounded (w : World) (ids : option (list string)) (st : state) :
  exists images t n,
    fetch_nft_images w ids st = (Ok images, advance st t n) /\
    (length images <= 20)%nat /\
    (forall l, ids = Some l -> (length images <= length l)%nat) /\
    Forall (fun u => u <> "") images /\
    List.filter is_send t = [].
Proof.
  destruct (fetch_nft_images_effects w ids st) as (images & t & n & Hrun & Hsend & Hnone).
  exists images, t, n. split; [exact Hrun |].
  destruct ids as [l |].
  - pose proof (fetch_nft_images_value w l st) as Hval. rewrite Hrun in Hval.
    simpl in Hval. injection Hval as ->.
    destruct (batch_images_bound w (batches l) (tick st)) as [Hlen Hne].
    rewrite batches_cover, length_take in Hlen.
    split; [lia |]. split; [| split; assumption].
    intros l' Hl'. injection Hl' as <-. lia.
  - destruct (Hnone eq_refl) as [-> _].
    split; [simpl; lia |]. split; [discriminate |].
    split; [constructor | assumption].
Qed.

(** When the marketplace answers a look-up the same way whenever it is
    asked, the URLs come back in the order of the ids: they are the
    non-empty texts among the look-ups of the first 20 ids. *)
Theorem fetch_nft_images_in_order (w : World) (ids : list string) (st : state) :
  (forall a b t, http_asset w a t = http_asset w b t) ->
  fst (fetch_nft_images w (Some ids) st)
  = Ok (kept (map (lookup w 0) (firstn 20 ids))).
Proof.
  intros Hstable.
  now rewrite fetch_nft_images_value, (batch_images_stable w _ _ Hstable), batches_cover.
Qed.

Lemma fetch_nft_images_in_order_witness :
  fst (fetch_nft_images Samples.calm (Some Samples.ids23) Samples.fresh)
  = Ok (kept (map (lookup Samples.calm 0) (firstn 20 Samples.ids23))).
Proof.
  apply (fetch_nft_images_in_order Samples.calm Samples.ids23 Samples.fresh).
  intros a b t. reflexivity.
Defined.

(** A look-up gives no URL on a transport error, on any status other
    than 200, on a body that cannot be decoded or is not an object, and on
    an object without image whose [collection] is null.  On an object, the
    asset's own [image_url] wins over the other candidates when it is
    there. *)
Theorem fetch_single_image_cases :
  (forall e, _fetch_single_image (Failed e) = JNull) /\
  (forall status body text,
     status <> 200 -> _fetch_single_image (Response status body text) = JNull) /\
  (forall e text, _fetch_single_image (Response 200 (Raise e) text) = JNull) /\
  (forall data text,
     (forall d, data <> JDict d) ->
     _fetch_single_image (Response 200 (Ok data) text) = JNull) /\
  (forall text,
     _fetch_single_image (Response 200 (Ok (JDict [("collection", JNull)])) text)
     = JNull) /\
  (forall d url text,
     assoc d "image_url" = Some url -> truthy url = true ->
     _fetch_single_image (Response 200 (Ok (JDict d)) text) = url).
Proof.
  repeat split.
  - intros status body text Hs. unfold _fetch_single_image.
    destruct (Z.eqb_spec status 200); [contradiction | reflexivity].
  - intros data text Hd. unfold _fetch_single_image, image_of_asset, rbind.
    destruct data; try reflexivity. now contradiction (Hd d).
  - intros d url text Hurl Htrue.
    unfold _fetch_single_image, image_of_asset, rbind, get, or_else.
    cbn [Z.eqb Pos.eqb]. rewrite Hurl, Htrue. reflexivity.
Qed.

Lemma fetch_single_image_cases_witness :
  _fetch_single_image
    (Response 200 (Ok (JDict [("image_url", JStr "https://img/1")])) (Ok EmptyString))
  = JStr "https://img/1".
Proof.
  apply (proj2 (proj2 (proj2 (proj2 (proj2 fetch_single_image_cases))))
           [("image_url", JStr "https://img/1")] (JStr "https://img/1")
           (Ok EmptyString));
    reflexivity.
Defined.

(* ===================================================================== *)
(** ** Further properties of the dispatch loop                            *)
(* ===================================================================== *)

Section DispatchFacts.
Variable w : World.

Lemma seen_exactly_refl st : seen_exactly st st.
Proof. intros k. split; [auto | intros [H | H]; [exact H | lia]]. Qed.

Lemma seen_exactly_trans st1 st2 st3 :
  (forall k, dispatch_step k st1 st2) -> (forall k, dispatch_step k st2 st3) ->
  seen_exactly st1 st2 -> seen_exactly st2 st3 -> seen_exactly st1 st3.
Proof.
  intros D1 D2 E1 E2 k.
  destruct (D1 k) as (_ & M1 & _ & _). destruct (D2 k) as (_ & M2 & _ & _).
  rewrite (E2 k), (E1 k). split.
  - intros [[H | H] | H]; [auto | right; lia | right; lia].
  - intros [H | H]; [auto |].
    destruct (Nat.lt_ge_cases (delivered k (trace st1)) (delivered k (trace st2)));
      [left; right; assumption | right; lia].
Qed.

Lemma seen_exactly_advance st t n :
  (forall k, delivered k t = 0%nat) -> seen_exactly st (advance st t n).
Proof.
  intros Ht k. cbn [advance trace processed_sales]. rewrite delivered_app, Ht.
  split; [auto | intros [H | H]; [exact H | lia]].
Qed.

Lemma process_sale_seen_exactly sale st :
  seen_exactly st (snd (process_sale w sale st)).
Proof.
  destruct (sale_id w sale) as [key | e] eqn:Hkey.
  2: { unfold process_sale, bind, lift. rewrite Hkey. apply seen_exactly_refl. }
  destruct (decide (key ∈ processed_sales st)) as [Hin | Hnew].
  { rewrite (process_sale_seen w sale st key Hkey Hin). apply seen_exactly_refl. }
  destruct (process_sale_run w sale st key Hkey Hnew)
    as (images & t & n & Hsend & _ & [[e ->] | [(embed & e & _ & ->) | (embed & _ & ->)]]).
  - apply seen_exactly_advance. intros k. now rewrite delivered_attempt.
  - apply seen_exactly_advance. intros k. now rewrite delivered_attempt.
  - intros k. cbn [snd mark advance trace processed_sales].
    rewrite delivered_app, delivered_attempt, delivered_sent by exact Hsend.
    rewrite elem_of_union, elem_of_singleton.
    destruct (String.eqb_spec key k) as [-> | Hne].
    + split; [intros _; right; lia | auto].
    + split; [intros [H | H]; [congruence | auto]
             | intros [H | H]; [auto | lia]].
Qed.

Lemma process_sales_seen_exactly sales : forall st,
  seen_exactly st (snd (process_sales w sales st)).
Proof.
  induction sales as [| sale sales IH]; intros st.
  - apply seen_exactly_refl.
  - unfold process_sales. cbn [foldM]. unfold bind.
    pose proof (process_sale_seen_exactly sale st) as Hstep.
    pose proof (fun k => process_sale_dispatch w k sale st) as Hd.
    destruct (process_sale w sale st) as [[[] | e] st1]; cbn [snd] in *.
    + eapply seen_exactly_trans;
        [exact Hd | intros k; apply process_sales_dispatch | exact Hstep | apply IH].
    + exact Hstep.
Qed.

End DispatchFacts.

(** After a cycle of the dispatch loop a key is in the seen-set exactly
    when it was there before or a notification for it was dispatched
    during the cycle: a sale whose processing failed is not marked, and is
    tried again when it is fetched again. *)
Theorem seen_set_exact (w : World) (st : state) (sales : list SaleEvent) (k : string) :
  k ∈ processed_sales (snd (process_sales w sales st)) <->
  k ∈ processed_sales st \/
  (delivered k (trace st)
   < delivered k (trace (snd (process_sales w sales st))))%nat.
Proof. apply process_sales_seen_exactly. Qed.

(** The dedup key of a parsed sale is the text of its transaction hash,
    an underscore and its first token id. *)
Theorem parsed_sale_key (w : World) (data : json) (st st' : state)
    (sales : list SaleEvent) (s : SaleEvent) :
  _parse_sales_response w data st = (Ok sales, st') ->
  In s sales ->
  exists first rest,
    sale_tokens s = first :: rest /\
    sale_id w s = Ok (py_str (py_repr w) (tx_hash s) +:+ "_" +:+ first).
Proof.
  intros Hparse Hs.
  destruct (parse_emitted w data st sales st' Hparse s Hs)
    as (k & events & now & Hne & ->).
  destruct (sale_of_fields w k events now Hne) as (Hids & Hcount & _ & Hone & Hmany).
  unfold sale_id, rbind, str.
  destruct (tokens w events) as [| first rest] eqn:Htok; [congruence |].
  exists first, rest. split; [exact Hids |].
  destruct (Z.eqb_spec (token_count (sale_of w k events now)) 1) as [H1 | Hn].
  - destruct (Hone H1) as [Hnone [t Ht]]. rewrite Ht.
    unfold sale_tokens in Hids. rewrite Hnone, Ht in Hids.
    injection Hids as -> _. reflexivity.
  - destruct (Hmany Hn) as [_ ->]. reflexivity.
Qed.

Lemma parsed_sale_key_witness :
  exists first rest,
    sale_tokens Samples.single_sale = first :: rest /\
    sale_id Samples.calm Samples.single_sale
    = Ok (py_str (py_repr Samples.calm) (tx_hash Samples.single_sale) +:+ "_" +:+ first).
Proof.
  apply (parsed_sale_key Samples.calm Samples.single_response Samples.fresh
           (advance Samples.fresh [] 1) [Samples.single_sale]).
  - vm_compute. reflexivity.
  - left. reflexivity.
Defined.

Section EmbedFacts.
Variable w : World.

Lemma unsubscriptable_first10 v :
  unsubscriptable v = true -> first10 v = Raise TypeError.
Proof. destruct v; try discriminate; reflexivity. Qed.

Lemma create_sale_embed_unsubscriptable sale images st :
  unsubscriptable (buyer sale) = true ->
  create_sale_embed w sale images st = (Raise TypeError, st).
Proof.
  intros H. unfold create_sale_embed, bind, lift.
  now rewrite (unsubscriptable_first10 _ H).
Qed.

Lemma process_sale_failed_embed sale st k e :
  sale_id w sale = Ok k -> k ∉ processed_sales st ->
  (forall images st0, create_sale_embed w sale images st0 = (Raise e, st0)) ->
  exists t n,
    List.filter is_send t = [] /\
    process_sale w sale st
    = (Ok tt, advance st (ELog Info (MsgFetching k) :: t
                          ++ [ELog Error (MsgSaleError k e)]) n).
Proof.
  intros Hkey Hnew Hembed.
  remember (process_sale w sale st) as res eqn:Hres.
  unfold process_sale, bind at 1, lift in Hres. rewrite Hkey in Hres.
  unfold bind at 1, is_processed in Hres.
  rewrite bool_decide_eq_false_2 in Hres by exact Hnew.
  unfold try_except, bind at 1, log at 1, emit in Hres.
  rewrite push_advance in Hres.
  destruct (fetch_nft_images_effects w (token_ids sale)
              (advance st [ELog Info (MsgFetching k)] 0))
    as (images & t & n & Hfetch & Hsend & _).
  exists t, n. split; [exact Hsend |].
  unfold bind at 1 in Hres.
  rewrite Hfetch, advance_advance in Hres. cbn [app Nat.add] in Hres.
  unfold bind at 1 in Hres. rewrite Hembed in Hres.
  unfold log, emit in Hres. rewrite Hres. to_advance. same_state.
Qed.

End EmbedFacts.

(** A sale whose buyer address is not a text (null, say) cannot be
    formatted: the slice of the address raises [TypeError], the error is
    logged, nothing is sent, and the sale does not enter the seen-set. *)
Theorem unsliceable_buyer_unpublished (w : World) (sale : SaleEvent) (st : state)
    (k : string) :
  unsubscriptable (buyer sale) = true ->
  sale_id w sale = Ok k ->
  k ∉ processed_sales st ->
  fst (process_sale w sale st) = Ok tt /\
  processed_sales (snd (process_sale w sale st)) = processed_sales st /\
  List.filter is_send (skipn (length (trace st)) (trace (snd (process_sale w sale st))))
  = [] /\
  In (ELog Error (MsgSaleError k TypeError)) (trace (snd (process_sale w sale st))).
Proof.
  intros Hbuyer Hkey Hnew.
  destruct (process_sale_failed_embed w sale st k TypeError Hkey Hnew)
    as (t & n & Hsend & ->).
  { intros images st0. now apply create_sale_embed_unsubscriptable. }
  cbn [fst snd advance trace processed_sales].
  split; [reflexivity |]. split; [reflexivity |]. split.
  - rewrite skipn_app, skipn_all, Nat.sub_diag. simpl.
    rewrite List.filter_app, Hsend. reflexivity.
  - apply in_or_app. right. right. apply in_or_app. right. now left.
Qed.

Lemma unsliceable_buyer_unpublished_witness :
  fst (process_sale Samples.calm Samples.anonymous_sale Samples.fresh) = Ok tt /\
  processed_sales (snd (process_sale Samples.calm Samples.anonymous_sale Samples.fresh))
  = processed_sales Samples.fresh /\
  List.filter is_send
    (skipn (length (trace Samples.fresh))
       (trace (snd (process_sale Samples.calm Samples.anonymous_sale Samples.fresh))))
  = [] /\
  In (ELog Error (MsgSaleError "0xabc_7" TypeError))
     (trace (snd (process_sale Samples.calm Samples.anonymous_sale Samples.fresh))).
Proof.
  apply (unsliceable_buyer_unpublished Samples.calm Samples.anonymous_sale
           Samples.fresh "0xabc_7").
  - reflexivity.
  - vm_compute. reflexivity.
  - simpl. apply not_elem_of_empty.
Defined.

(* ===================================================================== *)
(** ** Further properties of the marketplace client and the polling       *)
(* ===================================================================== *)

Section PollingFacts.
Variable w : World.

Lemma advance_to_same st t n : advance st t n = advance_to st t n (last_fetch_time st).
Proof. reflexivity. Qed.

(** The state a call of [fetch_recent_sales] leaves: one query and one
    note in the trace, the clock consulted at least once, and either the
    old watermark or the clock read last. *)
Lemma fetch_recent_sales_state st :
  exists e n wm,
    snd (fetch_recent_sales w st)
    = advance_to st [EGetEvents (last_fetch_time st); e] (S n) wm /\
    is_note e = true /\
    (wm = last_fetch_time st \/
     (e = EWatermark wm /\ wm = clock w (tick st + n)%nat /\ (1 <= n)%nat)).
Proof.
  rewrite fetch_recent_sales_run.
  assert (Hfail : forall l m,
            exists e n wm,
              snd (@Ok (list SaleEvent) [], advance (queried_state st) [ELog l m] 0)
              = advance_to st [EGetEvents (last_fetch_time st); e] (S n) wm /\
              is_note e = true /\
              (wm = last_fetch_time st \/
               (e = EWatermark wm /\ wm = clock w (tick st + n)%nat /\ (1 <= n)%nat))).
  { intros l m. exists (ELog l m), 0%nat, (last_fetch_time st).
    split; [| split; [reflexivity | now left]].
    unfold queried_state. rewrite advance_advance. cbn [snd].
    unfold advance, advance_to. f_equal; lia. }
  destruct (http_events w (tick st) (last_fetch_time st)) as [e | status body text];
    [apply Hfail |].
  destruct (status =? 200); [| destruct (status =? 429); [| destruct text]];
    try apply Hfail.
  destruct body as [data | e]; [| apply Hfail].
  destruct (_parse_sales_response w data (queried_state st))
    as [[sales | e] st2] eqn:Hparse;
    destruct (parse_state w data _ _ _ Hparse) as [m ->].
  - exists (EWatermark (clock w (tick st + (1 + m))%nat)), (1 + m)%nat,
      (clock w (tick st + (1 + m))%nat).
    split; [| split; [reflexivity | right; repeat split; lia]].
    unfold set_last_fetch_time, queried_state, advance_to.
    cbn [snd push next_tick advance trace tick last_fetch_time processed_sales].
    unfold push. cbn [trace tick last_fetch_time processed_sales].
    rewrite !app_nil_r, <- !app_assoc. cbn [app].
    replace (tick st + 1 + m)%nat with (tick st + (1 + m))%nat by lia.
    f_equal; lia.
  - exists (ELog Error (MsgFetchError e)), m, (last_fetch_time st).
    split; [| split; [reflexivity | now left]].
    unfold queried_state. rewrite !advance_advance. cbn [snd app].
    unfold advance, advance_to. f_equal; lia.
Qed.

Lemma delivered_note k e : is_note e = true -> delivered k [e] = 0%nat.
Proof. destruct e; try discriminate; reflexivity. Qed.

Lemma dispatch_step_advance_to k st t n wm :
  delivered k t = 0%nat -> dispatch_step k st (advance_to st t n wm).
Proof.
  intros Ht. unfold dispatch_step, pending. simpl. rewrite delivered_app, Ht.
  repeat split; auto; lia.
Qed.

Lemma seen_exactly_advance_to st t n wm :
  (forall k, delivered k t = 0%nat) -> seen_exactly st (advance_to st t n wm).
Proof.
  intros Ht k. cbn [advance_to trace processed_sales]. rewrite delivered_app, Ht.
  split; [auto | intros [H | H]; [exact H | lia]].
Qed.

Lemma fetch_recent_sales_dispatch st :
  (forall k, dispatch_step k st (snd (fetch_recent_sales w st))) /\
  seen_exactly st (snd (fetch_recent_sales w st)).
Proof.
  destruct (fetch_recent_sales_state st) as (e & n & wm & -> & He & _).
  assert (Hd : forall k, delivered k [EGetEvents (last_fetch_time st); e] = 0%nat).
  { intros k. change [EGetEvents (last_fetch_time st); e]
      with ([EGetEvents (last_fetch_time st)] ++ [e]).
    now rewrite delivered_app, (delivered_note k e He). }
  split; [intros k; now apply dispatch_step_advance_to
         | now apply seen_exactly_advance_to].
Qed.

(** What a polling cycle does, by what the client and the marketplace
    answer. *)
Lemma poll_sales_run st :
  poll_sales w st
  = if negb (client_ready w (tick st)) then (Ok tt, advance st [] 1)
    else if negb (channel_found w (S (tick st)))
         then (Ok tt, advance st [ELog Error MsgChannelMissing] 2)
         else
           let st1 := advance st [ELog Info MsgPolling] 2 in
           match fetch_recent_sales w st1 with
           | (Ok [], st2) => (Ok tt, st2)
           | (Ok sales, st2) =>
               match process_sales w sales
                       (advance st2 [ELog Info (MsgFound (len sales))] 0) with
               | (Ok _, st3) => (Ok tt, st3)
               | (Raise e, st3) => (Ok tt, advance st3 [ELog Error (MsgPollError e)] 0)
               end
           | (Raise e, st2) => (Ok tt, advance st2 [ELog Error (MsgPollError e)] 0)
           end.
Proof.
  unfold poll_sales, bind at 1, ask at 1. rewrite next_tick_advance.
  destruct (client_ready w (tick st)); cbn [negb]; [| reflexivity].
  unfold bind at 1, ask. cbn [advance tick]. rewrite next_tick_advance, advance_advance.
  replace (tick st + 1)%nat with (S (tick st)) by lia.
  destruct (channel_found w (S (tick st))); cbn [negb app Nat.add].
  - unfold try_except, bind at 1, log at 1, emit. rewrite push_advance, advance_advance.
    cbn [app Nat.add]. unfold bind at 1.
    destruct (fetch_recent_sales w (advance st [ELog Info MsgPolling] 2))
      as [[sales | e] st2].
    + destruct sales as [| s sales]; [reflexivity |].
      unfold bind, log, emit. rewrite push_advance.
      destruct (process_sales w (s :: sales) _) as [[[] | e] st3];
        [reflexivity | now rewrite push_advance].
    + unfold log, emit. now rewrite push_advance.
  - unfold log, emit. rewrite push_advance, advance_advance. reflexivity.
Qed.

Lemma dispatch_step_log k st l m n :
  dispatch_step k st (advance st [ELog l m] n).
Proof. now apply dispatch_step_advance. Qed.

Lemma poll_sales_dispatch st :
  fst (poll_sales w st) = Ok tt /\
  (forall k, dispatch_step k st (snd (poll_sales w st))) /\
  seen_exactly st (snd (poll_sales w st)).
Proof.
  rewrite poll_sales_run.
  assert (Hq : forall st0 t n, (forall k, delivered k t = 0%nat) ->
                 (forall k, dispatch_step k st0 (advance st0 t n))
                 /\ seen_exactly st0 (advance st0 t n)).
  { intros st0 t n Ht. split;
      [intros k; now apply dispatch_step_advance | now apply seen_exactly_advance]. }
  destruct (negb (client_ready w (tick st)));
    [split; [reflexivity | now apply Hq] |].
  destruct (negb (channel_found w (S (tick st))));
    [split; [reflexivity | now apply Hq] |].
  cbv zeta.
  set (st1 := advance st [ELog Info MsgPolling] 2).
  assert (H1 : (forall k, dispatch_step k st st1) /\ seen_exactly st st1)
    by now apply Hq.
  pose proof (fetch_recent_sales_dispatch st1) as H2.
  destruct (fetch_recent_sales w st1) as [[sales | e] st2]; cbn [snd] in H2.
  - assert (H12 : (forall k, dispatch_step k st st2) /\ seen_exactly st st2).
    { split; [intros k; eapply dispatch_step_trans; [apply H1 | apply H2] |].
      eapply seen_exactly_trans; [apply H1 | apply H2 | apply H1 | apply H2]. }
    destruct sales as [| s sales]; [split; [reflexivity | exact H12] |].
    set (st2' := advance st2 [ELog Info (MsgFound (len (s :: sales)))] 0).
    assert (H3 : (forall k, dispatch_step k st2 st2') /\ seen_exactly st2 st2')
      by now apply Hq.
    pose proof (fun k => process_sales_dispatch w k (s :: sales) st2') as H4.
    pose proof (process_sales_seen_exactly w (s :: sales) st2') as H5.
    assert (H123 : (forall k, dispatch_step k st st2') /\ seen_exactly st st2').
    { split; [intros k; eapply dispatch_step_trans; [apply H12 | apply H3] |].
      eapply seen_exactly_trans; [apply H12 | apply H3 | apply H12 | apply H3]. }
    destruct (process_sales w (s :: sales) st2') as [[[] | e] st3]; cbn [snd] in *.
    + split; [reflexivity |].
      split; [intros k; eapply dispatch_step_trans; [apply H123 | apply H4] |].
      eapply seen_exactly_trans; [apply H123 | exact H4 | apply H123 | exact H5].
    + assert (H6 : (forall k, dispatch_step k st3
                                (advance st3 [ELog Error (MsgPollError e)] 0))
                   /\ seen_exactly st3 (advance st3 [ELog Error (MsgPollError e)] 0))
        by now apply Hq.
      assert (H1234 : (forall k, dispatch_step k st st3) /\ seen_exactly st st3).
      { split; [intros k; eapply dispatch_step_trans; [apply H123 | apply H4] |].
        eapply seen_exactly_trans; [apply H123 | exact H4 | apply H123 | exact H5]. }
      split; [reflexivity |].
      split; [intros k; eapply dispatch_step_trans; [apply H1234 | apply H6] |].
      eapply seen_exactly_trans; [apply H1234 | apply H6 | apply H1234 | apply H6].
  - assert (H6 : (forall k, dispatch_step k st2
                              (advance st2 [ELog Error (MsgPollError e)] 0))
                 /\ seen_exactly st2 (advance st2 [ELog Error (MsgPollError e)] 0))
      by now apply Hq.
    split; [reflexivity |].
    assert (H12 : (forall k, dispatch_step k st st2) /\ seen_exactly st st2).
    { split; [intros k; eapply dispatch_step_trans; [apply H1 | apply H2] |].
      eapply seen_exactly_trans; [apply H1 | apply H2 | apply H1 | apply H2]. }
    split; [intros k; eapply dispatch_step_trans; [apply H12 | apply H6] |].
    eapply seen_exactly_trans; [apply H12 | apply H6 | apply H12 | apply H6].
Qed.

Lemma cycles_dispatch n : forall st,
  (forall k, dispatch_step k st (cycles w n st)) /\ seen_exactly st (cycles w n st).
Proof.
  induction n as [| n IH]; intros st.
  - split; [intros k; apply dispatch_step_refl | apply seen_exactly_refl].
  - cbn [cycles].
    destruct (poll_sales_dispatch st) as (_ & Hd & Hs).
    destruct (IH (snd (poll_sales w st))) as [Hd' Hs'].
    split; [intros k; eapply dispatch_step_trans; [apply Hd | apply Hd'] |].
    eapply seen_exactly_trans; eauto.
Qed.

End PollingFacts.

(** A polling cycle never raises.  When the client is not ready it does
    nothing; when the channel is not found it only logs the fact: in both
    cases the marketplace is not queried. *)
Theorem poll_sales_guarded :
  (forall w st, fst (poll_sales w st) = Ok tt) /\
  (forall w st,
     client_ready w (tick st) = false ->
     poll_sales w st = (Ok tt, advance st [] 1)) /\
  (forall w st,
     client_ready w (tick st) = true ->
     channel_found w (S (tick st)) = false ->
     poll_sales w st = (Ok tt, advance st [ELog Error MsgChannelMissing] 2)).
Proof.
  split; [| split].
  - intros w st. apply poll_sales_dispatch.
  - intros w st Hready. rewrite poll_sales_run, Hready. reflexivity.
  - intros w st Hready Hchannel. rewrite poll_sales_run, Hready, Hchannel.
    reflexivity.
Qed.

(** Over any number of polling cycles, whatever the marketplace and the
    channel answer: at most one notification is dispatched for a key, none
    for a key that was in the seen-set, and a key is in the seen-set at the
    end exactly when it was there or was dispatched in between. *)
Theorem polling_idempotent (w : World) (n : nat) (st : state) (k : string) :
  (delivered k (trace (cycles w n st)) <= delivered k (trace st) + 1)%nat /\
  (k ∈ processed_sales st ->
   delivered k (trace (cycles w n st)) = delivered k (trace st)) /\
  (k ∈ processed_sales (cycles w n st) <->
   k ∈ processed_sales st \/
   (delivered k (trace st) < delivered k (trace (cycles w n st)))%nat).
Proof.
  destruct (cycles_dispatch w n st) as [Hd Hs].
  destruct (Hd k) as (_ & Hmono & Hbudget & _).
  split; [| split; [| apply Hs]].
  - assert (pending k st <= 1)%nat by (unfold pending; case_bool_decide; lia).
    lia.
  - intros Hin.
    assert (pending k st = 0)%nat
      by (unfold pending; now rewrite bool_decide_eq_true_2).
    lia.
Qed.

(** The same sale fetched in two cycles is announced once: in the sample
    market, which answers every query with the same response, two cycles
    dispatch one notification. *)
Example same_response_twice :
  delivered "0xabc_7" (trace (cycles Samples.market 1 Samples.fresh)) = 1%nat /\
  delivered "0xabc_7" (trace (cycles Samples.market 2 Samples.fresh)) = 1%nat.
Proof. vm_compute. split; reflexivity. Qed.

(** A call of [fetch_recent_sales] issues exactly one events query,
    bounded below by the watermark at the time of the call, and adds one
    note to the trace (a log entry or the new watermark); it looks up no
    asset, sends nothing and leaves the seen-set alone. *)
Theorem fetch_recent_sales_one_query (w : World) (st : state) :
  exists e,
    trace (snd (fetch_recent_sales w st))
    = trace st ++ [EGetEvents (last_fetch_time st); e] /\
    is_note e = true /\
    processed_sales (snd (fetch_recent_sales w st)) = processed_sales st /\
    (tick st < tick (snd (fetch_recent_sales w st)))%nat.
Proof.
  destruct (fetch_recent_sales_state w st) as (e & n & wm & -> & He & _).
  exists e. cbn [advance_to trace processed_sales tick].
  repeat split; auto. lia.
Qed.

(** With a clock that does not run backwards, the watermark never
    decreases and never runs ahead of the clock. *)
Theorem watermark_monotone (w : World) (st : state) :
  (forall a b, (a <= b)%nat -> clock w a <= clock w b) ->
  last_fetch_time st <= clock w (tick st) ->
  last_fetch_time st <= last_fetch_time (snd (fetch_recent_sales w st)) /\
  last_fetch_time (snd (fetch_recent_sales w st))
  <= clock w (tick (snd (fetch_recent_sales w st))).
Proof.
  intros Hclock Hinv.
  destruct (fetch_recent_sales_state w st) as (e & n & wm & -> & _ & Hwm).
  cbn [advance_to last_fetch_time tick].
  destruct Hwm as [-> | (_ & -> & Hn)].
  - split; [lia |]. specialize (Hclock (tick st) (tick st + S n)%nat). lia.
  - split.
    + specialize (Hclock (tick st) (tick st + n)%nat). lia.
    + apply Hclock. lia.
Qed.

Lemma watermark_monotone_witness :
  last_fetch_time Samples.fresh
  <= last_fetch_time (snd (fetch_recent_sales Samples.market Samples.fresh)) /\
  last_fetch_time (snd (fetch_recent_sales Samples.market Samples.fresh))
  <= clock Samples.market (tick (snd (fetch_recent_sales Samples.market Samples.fresh))).
Proof.
  apply (watermark_monotone Samples.market Samples.fresh).
  - intros a b Hab. simpl. lia.
  - simpl. lia.
Defined.

Lemma poll_sales_guarded_witness :
  poll_sales Samples.asleep Samples.fresh = (Ok tt, advance Samples.fresh [] 1).
Proof.
  apply (proj1 (proj2 poll_sales_guarded) Samples.asleep Samples.fresh).
  reflexivity.
Defined.

(* ===================================================================== *)
(** ** Further properties of the notification                             *)
(* ===================================================================== *)

(** Every count gets one of the four labels; a count below 1 falls in the
    last branch and is labelled huge. *)
Theorem sweep_category_total :
  (forall t, In (get_sweep_category t) ["single"; "mini"; "big"; "huge"]) /\
  (forall t, t <= 0 -> get_sweep_category t = "huge").
Proof.
  split; intros t; [| intros Ht]; unfold get_sweep_category.
  - destruct (t =? 1); [simpl; auto |].
    destruct ((2 <=? t) && (t <=? 5)); [simpl; auto |].
    destruct ((6 <=? t) && (t <=? 10)); simpl; auto.
  - destruct (Z.eqb_spec t 1); [lia |].
    destruct (Z.leb_spec 2 t); [lia |]. cbn [andb].
    destruct (Z.leb_spec 6 t); [lia |]. reflexivity.
Qed.

Lemma sweep_category_total_witness : get_sweep_category 0 = "huge".
Proof. apply (proj2 sweep_category_total 0). lia. Defined.

Section OrderFacts.
Variable w : World.

Lemma sent_keys_app a b : sent_keys (a ++ b) = sent_keys a ++ sent_keys b.
Proof. unfold sent_keys. apply flat_map_app. Qed.

Lemma sent_keys_no_send t : List.filter is_send t = [] -> sent_keys t = [].
Proof.
  induction t as [| e t IH]; [reflexivity |].
  simpl. destruct e; simpl; try discriminate; auto.
Qed.

Lemma sent_keys_attempt key t tail :
  List.filter is_send t = [] ->
  sent_keys (ELog Info (MsgFetching key) :: t ++ tail) = sent_keys tail.
Proof.
  intros Hsend.
  change (ELog Info (MsgFetching key) :: t ++ tail)
    with ([ELog Info (MsgFetching key)] ++ t ++ tail).
  now rewrite !sent_keys_app, (sent_keys_no_send t Hsend).
Qed.

Lemma process_sale_sent sale st :
  exists t,
    trace (snd (process_sale w sale st)) = trace st ++ t /\
    sublist (sent_keys t) (keys_of w [sale]).
Proof.
  unfold keys_of. cbn [flat_map]. rewrite app_nil_r.
  destruct (sale_id w sale) as [key | e] eqn:Hkey.
  2: { exists []. unfold process_sale, bind, lift. rewrite Hkey. cbn [snd].
       split; [now rewrite app_nil_r | constructor]. }
  destruct (decide (key ∈ processed_sales st)) as [Hin | Hnew].
  { exists []. rewrite (process_sale_seen w sale st key Hkey Hin). cbn [snd].
    split; [now rewrite app_nil_r | apply sublist_nil_l]. }
  destruct (process_sale_run w sale st key Hkey Hnew)
    as (images & t & n & Hsend & _ & [[e ->] | [(embed & e & _ & ->) | (embed & _ & ->)]]);
    eexists; (split; [reflexivity |]); rewrite sent_keys_attempt by exact Hsend;
    simpl; try apply sublist_nil_l. reflexivity.
Qed.

Lemma process_sales_sent sales : forall st,
  exists t,
    trace (snd (process_sales w sales st)) = trace st ++ t /\
    sublist (sent_keys t) (keys_of w sales).
Proof.
  induction sales as [| sale sales IH]; intros st.
  - exists []. split; [simpl; now rewrite app_nil_r | constructor].
  - unfold process_sales. cbn [foldM]. unfold bind.
    destruct (process_sale_sent sale st) as (t1 & Ht1 & Hs1).
    replace (keys_of w (sale :: sales)) with (keys_of w [sale] ++ keys_of w sales)
      by (unfold keys_of; cbn [flat_map]; now rewrite app_nil_r).
    destruct (process_sale w sale st) as [[[] | e] st1]; cbn [snd] in *.
    + destruct (IH st1) as (t2 & Ht2 & Hs2). exists (t1 ++ t2).
      unfold process_sales in Ht2. rewrite Ht2, Ht1, app_assoc.
      split; [reflexivity |]. rewrite sent_keys_app. now apply sublist_app.
    + exists t1. split; [exact Ht1 |].
      eapply sublist_inserts_r in Hs1. exact Hs1.
Qed.

End OrderFacts.

(** The notifications of a cycle are dispatched in the order of the
    fetched sales: the keys of the messages that reached the channel are a
    subsequence of the keys of the sales. *)
Theorem dispatch_in_fetched_order (w : World) (sales : list SaleEvent) (st : state) :
  exists t,
    trace (snd (process_sales w sales st)) = trace st ++ t /\
    sublist (sent_keys t) (keys_of w sales).
Proof. apply process_sales_sent. Qed.

Section EmbedShape.
Variable w : World.

Lemma category_single c :
  String.eqb (get_sweep_category c) "single" = (c =? 1).
Proof.
  unfold get_sweep_category. destruct (c =? 1); [reflexivity |].
  destruct ((2 <=? c) && (c <=? 5)); [reflexivity |].
  destruct ((6 <=? c) && (c <=? 10)); reflexivity.
Qed.

Lemma image_links_none i imgs :
  imgs <> [] -> image_links None i imgs = Raise TypeError.
Proof. destruct imgs; [congruence | reflexivity]. Qed.

Lemma create_sale_embed_ok sale images st e st' :
  create_sale_embed w sale images st = (Ok e, st') ->
  st' = next_tick st /\
  image e = head images /\
  footer e = Some "NFT Sales Monitor" /\
  Discord.timestamp e = clock w (tick st) /\
  length (fields e) =
    ((if truthy (tx_hash sale) then 1 else 0) +
     (if (1 <? length images)%nat then 1 else 0))%nat /\
  exists price,
    format_price (total_price sale) = Ok price /\
    description e =
      (if token_count sale =? 1 then "**Price:** " else "**Total Price:** ")
        +:+ price +:+ " ETH".
Proof.
  unfold create_sale_embed, bind, lift, ret, utcnow. intros H.
  rewrite category_single in H.
  destruct (first10 (buyer sale)) as [short |]; [| discriminate].
  destruct (format_price (total_price sale)) as [price |]; [| discriminate].
  destruct (token_count sale =? 1);
    repeat (break_match; try discriminate);
    injection H as <- <-; cbn;
    do 5 (split; [reflexivity |]); exists price; split; reflexivity.
Qed.

End EmbedShape.

(** A notification that could be built carries the first image as its
    picture and the fixed footer, is stamped with the clock, shows the
    formatted total price, and has one field for the transaction link (when
    the sale names a transaction) and one for the image links (when there
    is more than one image): never more than two. *)
Theorem create_sale_embed_shape (w : World) (sale : SaleEvent)
    (images : list string) (st st' : state) (e : Embed) :
  create_sale_embed w sale images st = (Ok e, st') ->
  image e = head images /\
  footer e = Some "NFT Sales Monitor" /\
  Discord.timestamp e = clock w (tick st) /\
  length (fields e) =
    ((if truthy (tx_hash sale) then 1 else 0) +
     (if (1 <? length images)%nat then 1 else 0))%nat /\
  (length (fields e) <= 2)%nat /\
  exists price,
    format_price (total_price sale) = Ok price /\
    description e =
      (if token_count sale =? 1 then "**Price:** " else "**Total Price:** ")
        +:+ price +:+ " ETH".
Proof.
  intros H.
  destruct (create_sale_embed_ok w sale images st e st' H)
    as (_ & Himg & Hfoot & Hts & Hlen & Hdesc).
  repeat (split; [assumption |]). split; [| exact Hdesc].
  rewrite Hlen. destruct (truthy (tx_hash sale)), (1 <? length images)%nat; lia.
Qed.

(** The image links of a notification are labelled from the sale's list of
    token ids: with two or more images and no such list, as for a sale of a
    single token, building the notification raises TypeError, whatever the
    rest of the sale. *)
Theorem create_sale_embed_needs_ids (w : World) (sale : SaleEvent)
    (images : list string) (st : state) :
  (2 <= length images)%nat -> token_ids sale = None ->
  forall r st', create_sale_embed w sale images st = (r, st') ->
  exists e, r = Raise e.
Proof.
  intros Hlen Hids r st'.
  unfold create_sale_embed, bind, lift, ret, utcnow. rewrite Hids.
  destruct images as [| i1 [| i2 images]]; try (simpl in Hlen; lia).
  destruct (first10 (buyer sale)); [| intros [= <- _]; eauto].
  destruct (format_price (total_price sale)); [| intros [= <- _]; eauto].
  replace (1 <? length (i1 :: i2 :: images))%nat with true by reflexivity.
  rewrite image_links_none by discriminate.
  repeat break_match; intros [= <- _]; eauto.
Qed.

(* ===================================================================== *)
(** ** Start-up                                                           *)
(* ===================================================================== *)

Section StartupFacts.
Import Startup.

Lemma falsy_false o : falsy o = false -> exists s, o = Some s /\ s <> "".
Proof.
  destruct o as [s |]; [| discriminate]. simpl. intros H.
  exists s. split; [reflexivity |]. now apply String.eqb_neq.
Qed.

Lemma load_inv env now cfg f :
  load env now = Ok (cfg, f) ->
  BOT_TOKEN cfg = DISCORD_BOT_TOKEN env /\
  int_of_string (getenv (DISCORD_CHANNEL_ID env) "0") = Ok (CHANNEL_ID cfg) /\
  int_of_string (getenv (POLL_INTERVAL_SECONDS env) "10") = Ok (POLL_INTERVAL cfg) /\
  CONTRACT_ADDRESS cfg = NFT_CONTRACT_ADDRESS env /\
  API_KEY cfg = getenv (OPENSEA_API_KEY env) "" /\
  init (NFT_CONTRACT_ADDRESS env) (getenv (OPENSEA_API_KEY env) "") now = Ok f.
Proof.
  unfold load, configure, rbind.
  destruct (int_of_string (getenv (DISCORD_CHANNEL_ID env) "0")) as [c |];
    [| discriminate].
  destruct (int_of_string (getenv (POLL_INTERVAL_SECONDS env) "10")) as [i |];
    [| discriminate].
  cbn [CONTRACT_ADDRESS API_KEY].
  destruct (init _ _ now) as [f0 |] eqn:Hinit; [| discriminate].
  intros [= <- <-]. cbn. repeat split; assumption || reflexivity.
Qed.

Lemma main_run cfg run token :
  In (ClientRun token) (main cfg run) ->
  BOT_TOKEN cfg = Some token /\ token <> "" /\ CHANNEL_ID cfg <> 0 /\
  falsy (CONTRACT_ADDRESS cfg) = false.
Proof.
  unfold main. destruct (BOT_TOKEN cfg) as [t |]; [| simpl; intuition discriminate].
  destruct (String.eqb_spec t ""); [simpl; intuition discriminate |].
  destruct (Z.eqb_spec (CHANNEL_ID cfg) 0); [simpl; intuition discriminate |].
  destruct (falsy (CONTRACT_ADDRESS cfg)); [simpl; intuition discriminate |].
  destruct (run t); simpl; intros [[= <-] | H]; auto;
    try (destruct H as [H | []]; discriminate); contradiction.
Qed.

End StartupFacts.

(** The client is started only from a complete configuration: whenever
    the module loads and [main] calls [client.run], the token it passes is
    the non-empty DISCORD_BOT_TOKEN, DISCORD_CHANNEL_ID is set and reads as
    a non-zero integer, NFT_CONTRACT_ADDRESS is set and non-empty, and the
    fetcher holds that address in lower case with its watermark two
    minutes before the time of loading. *)
Theorem client_run_requires (env : Startup.Env) (now : Z)
    (cfg : Startup.Config) (f : Startup.Fetcher)
    (run : string -> option exn) (token : string) :
  Startup.load env now = Ok (cfg, f) ->
  In (Startup.ClientRun token) (Startup.main cfg run) ->
  Startup.DISCORD_BOT_TOKEN env = Some token /\ token <> "" /\
  (exists text z, Startup.DISCORD_CHANNEL_ID env = Some text /\
                  int_of_string text = Ok z /\ z <> 0) /\
  (exists a, Startup.NFT_CONTRACT_ADDRESS env = Some a /\ a <> "" /\
             Startup.contract_address f = Startup.lower a) /\
  Startup.last_fetch_time f = now - 120000000.
Proof.
  intros Hload Hrun.
  destruct (load_inv env now cfg f Hload) as (Htok & Hch & _ & Hca & _ & Hinit).
  destruct (main_run cfg run token Hrun) as (Ht & Hne & Hz & Hf).
  rewrite Htok in Ht. rewrite Hca in Hf.
  destruct (falsy_false _ Hf) as (a & Ha & Hane).
  rewrite Ha in Hinit. injection Hinit as <-.
  split; [exact Ht |]. split; [exact Hne |]. split; [| split].
  - destruct (Startup.DISCORD_CHANNEL_ID env) as [text |].
    + exists text, (Startup.CHANNEL_ID cfg). auto.
    + assert (int_of_string "0" = Ok 0) as H0 by (vm_compute; reflexivity).
      unfold Startup.getenv in Hch. rewrite H0 in Hch.
      injection Hch as Hch. congruence.
  - exists a. auto.
  - reflexivity.
Qed.

Lemma client_run_requires_witness :
  Startup.DISCORD_BOT_TOKEN Samples.env_complete = Some "secret" /\ "secret" <> "" /\
  (exists text z, Startup.DISCORD_CHANNEL_ID Samples.env_complete = Some text /\
                  int_of_string text = Ok z /\ z <> 0) /\
  (exists a, Startup.NFT_CONTRACT_ADDRESS Samples.env_complete = Some a /\ a <> "" /\
             Startup.contract_address Samples.fetcher_complete = Startup.lower a) /\
  Startup.last_fetch_time Samples.fetcher_complete = 0 - 120000000.
Proof.
  apply (client_run_requires Samples.env_complete 0 Samples.cfg_complete
           Samples.fetcher_complete (fun _ => None) "secret").
  - vm_compute. reflexivity.
  - left. reflexivity.
Defined.



(** The API key header is sent exactly when OPENSEA_API_KEY is set to a
    non-empty text: the session of a loaded fetcher has the one header
    X-API-KEY with that text, and no header at all otherwise. *)
Theorem api_key_header (env : Startup.Env) (now : Z)
    (cfg : Startup.Config) (f : Startup.Fetcher) :
  Startup.load env now = Ok (cfg, f) ->
  Startup.session_headers f =
    match Startup.OPENSEA_API_KEY env with
    | Some key => if String.eqb key "" then [] else [("X-API-KEY", key)]
    | None => []
    end.
Proof.
  intros Hload.
  destruct (load_inv env now cfg f Hload) as (_ & _ & _ & _ & _ & Hinit).
  unfold Startup.init in Hinit.
  destruct (Startup.NFT_CONTRACT_ADDRESS env); [| discriminate].
  injection Hinit as <-. unfold Startup.session_headers. cbn.
  destruct (Startup.OPENSEA_API_KEY env); reflexivity.
Qed.

Lemma api_key_header_witness :
  Startup.session_headers Samples.fetcher_complete = [].
Proof.
  apply (api_key_header Samples.env_complete 0 Samples.cfg_complete
           Samples.fetcher_complete).
  vm_compute. reflexivity.
Defined.

Lemma create_sale_embed_shape_witness :
  match create_sale_embed Samples.calm Samples.sweep_sale
          ["https://img/8"; "https://img/9"] Samples.fresh with
  | (Ok e, _) => image e = Some "https://img/8" /\ length (fields e) = 2%nat
  | _ => False
  end.
Proof.
  destruct (create_sale_embed Samples.calm Samples.sweep_sale
              ["https://img/8"; "https://img/9"] Samples.fresh)
    as [[e | x] st'] eqn:H.
  - destruct (create_sale_embed_shape _ _ _ _ _ _ H) as (Hi & _ & _ & Hl & _).
    split; [exact Hi | exact Hl].
  - vm_compute in H. discriminate.
Defined.

Lemma create_sale_embed_needs_ids_witness :
  exists e, fst (create_sale_embed Samples.calm Samples.single_sale
                   ["https://img/7"; "https://img/7b"] Samples.fresh) = Raise e.
Proof.
  destruct (create_sale_embed Samples.calm Samples.single_sale
              ["https://img/7"; "https://img/7b"] Samples.fresh) as [r st'] eqn:H.
  apply (create_sale_embed_needs_ids Samples.calm Samples.single_sale
           ["https://img/7"; "https://img/7b"] Samples.fresh
           (le_n 2) eq_refl r st' H).
Defined.
